(** * svelte-multi-filter: the filter stores and their derived views

    The repository ships two stores over a fixed array of items:

    - [createFilterStore] (src/lib/index.ts), whose [select] only overwrites
      the chosen dimension;
    - [createMultiFilterStore] (MultiFilterStore.ts), whose [updateProperty]
      also tries to reset selections that became invalid.

    Both are embedded below, each in a module of its own, on top of a small
    model of the JavaScript values and array operations they use.

    Objects used as dictionaries (the items, the configuration, the state)
    are finite maps over their own string keys.  [Object.entries] and
    [Object.keys] are [map_to_list]: the stores only pass the enumeration to
    [every], [filter] and a [forEach] whose rounds touch one key each, so the
    order of enumeration does not show in any result (see
    [forEach_reset_invalid_lookup] and [forEach_reset_invalid_raises] for the
    [forEach]).

    A read [obj[name]] also finds what [obj] inherits from
    [Object.prototype].  Where the outcome depends on it, in
    [properties[propertyName]] of createMultiFilterStore, the inherited
    members are modelled ([Object_prototype], [Reconciling.read_property]).
    A function that can raise a [TypeError] returns an [option], [None]
    being the raise. *)

From Stdlib Require Import ZArith.
From stdpp Require Import gmap strings list fin_maps.

(** ** JavaScript values

    [PropertyValue = string | number].  Only equality of values is ever
    used by the stores, so a finite number is represented by an integer;
    [NaN] is kept apart because [===] and the SameValueZero comparison of
    [Array.prototype.includes] and [Set] disagree on it. *)

Inductive PropertyValue :=
  | Str (s : string)
  | Num (n : Z)
  | NaN.

#[global] Instance PropertyValue_eq_dec : EqDecision PropertyValue.
Proof. solve_decision. Defined.

(** The result of reading a field: [None] is [undefined]. *)
Abbreviation JsValue := (option PropertyValue).

(** An item is a record of named fields; [item !! key] is [item[key]].  For
    a name the item does not have, [item[key]] is [undefined], or a member
    inherited from [Object.prototype]: either way a value that no
    [PropertyValue] is equal to, under [===] and under SameValueZero, which
    is all the stores ask of it; [None] stands for both. *)
Abbreviation Item := (gmap string PropertyValue).

(** [a === b] *)
Definition strict_equal (a b : JsValue) : bool :=
  match a, b with
  | Some NaN, _ | _, Some NaN => false
  | _, _ => bool_decide (a = b)
  end.

(** SameValueZero, the comparison of [includes] and of [Set]. *)
Definition same_value_zero (a b : JsValue) : bool := bool_decide (a = b).

(** [l.includes(x)] *)
Definition includes (l : list JsValue) (x : JsValue) : bool :=
  existsb (fun y => same_value_zero y x) l.

(** [[...new Set(l)]]: a [Set] keeps the first occurrence of each value, in
    insertion order. *)
Definition Set_add (s : list JsValue) (x : JsValue) : list JsValue :=
  if includes s x then s else s ++ [x].

Definition new_Set (l : list JsValue) : list JsValue := fold_left Set_add l [].

(** The sentinel is the plain string ['Any']. *)
Definition ANY_OPTION : PropertyValue := Str "Any".

(** [item[key] === value], as a proposition. *)
Definition field_is (item : Item) (key : string) (value : PropertyValue) : Prop :=
  item !! key = Some value ∧ value ≠ NaN.

#[global] Instance field_is_dec item key value : Decision (field_is item key value).
Proof. unfold field_is. apply _. Defined.

(** ** Object.prototype

    The names every object literal inherits a member under: the own
    properties of [Object.prototype].  All but [__proto__] are functions;
    [obj.__proto__] is [Object.prototype] itself.  Each is truthy and has no
    field [options]. *)
Definition Object_prototype : list string :=
  ["constructor"; "__defineGetter__"; "__defineSetter__"; "hasOwnProperty";
   "__lookupGetter__"; "__lookupSetter__"; "isPrototypeOf";
   "propertyIsEnumerable"; "toString"; "valueOf"; "__proto__"; "toLocaleString"].

Definition inherited (name : string) : bool := bool_decide (name ∈ Object_prototype).

(** [keys.forEach(f)] over a state [s] that [f] updates; a raise in one
    round ends the loop. *)
Fixpoint forEach {S : Type} (f : S -> string -> option S) (keys : list string) (s : S)
    : option S :=
  match keys with
  | [] => Some s
  | key :: keys => s' ← f s key; forEach f keys s'
  end.

(** ** createMultiFilterStore (MultiFilterStore.ts) *)

Module Reconciling.

Record FilterProperty := {
  name : string;
  options : list PropertyValue
}.

(** [FilterState]: [{ [key: string]: PropertyValue | 'Any' }]. *)
Abbreviation FilterState := (gmap string PropertyValue).

(** The writable store together with the closure variable [currentState],
    which the store's own subscription refreshes each time a value is set. *)
Record Store := {
  filterStore : FilterState;
  currentState : FilterState
}.

(** svelte/store: [set] stores the value and then runs the subscribers (here
    the one that assigns [currentState]); [update fn] is [set (fn value)], so
    [fn] runs before any subscriber sees the new value, and when [fn] raises
    nothing is set: the raise leaves the caller with the store as it was. *)
Definition writable_set (value : FilterState) : Store :=
  {| filterStore := value; currentState := value |}.

Definition writable_update (fn : FilterState -> option FilterState) (st : Store)
    : option Store :=
  writable_set <$> fn (filterStore st).

(** What [properties[propertyName]] is when it is not [undefined]: a
    configured property, or a member inherited from [Object.prototype]. *)
Inductive Member :=
  | Own (property : FilterProperty)
  | Inherited.

(** [property.options]; an inherited member has no such field, [None] is
    [undefined]. *)
Definition member_options (property : Member) : option (list PropertyValue) :=
  match property with
  | Own property => Some (options property)
  | Inherited => None
  end.

(** [xs.filter(f)]; raises when [xs] is [undefined]. *)
Definition filter_options (xs : option (list PropertyValue)) (f : PropertyValue -> bool)
    : option (list PropertyValue) :=
  (fun opts => filter (fun option => f option) opts) <$> xs.

Section createMultiFilterStore.

Variable items : list Item.
Variable properties : gmap string FilterProperty.

Definition initialState : FilterState :=
  fold_left (fun acc key => <[key := ANY_OPTION]> acc) (map_to_list properties).*1 ∅.

Definition create : Store := writable_set initialState.

(** [properties[propertyName]] *)
Definition read_property (propertyName : string) : option Member :=
  match properties !! propertyName with
  | Some property => Some (Own property)
  | None => if inherited propertyName then Some Inherited else None
  end.

Definition getExistingValues (propertyName : string) : list JsValue :=
  new_Set (map (fun item : Item => item !! propertyName) items).

(** The part of [getAvailableOptions] after the all-others-Any return. *)
Definition availableOptions_scan (cur : FilterState) (propertyName : string)
    (property : Member) : option (list PropertyValue) :=
  let filteredItems :=
    filter (fun item : Item =>
      forallb (fun kv : string * PropertyValue =>
        if bool_decide (kv.1 = propertyName) || strict_equal (Some kv.2) (Some ANY_OPTION)
        then true
        else strict_equal (item !! kv.1) (Some kv.2))
        (map_to_list cur)) items in
  let availableOptions :=
    new_Set (map (fun item : Item => item !! propertyName) filteredItems) in
  filter_options (member_options property)
    (fun option => includes availableOptions (Some option)).

Definition getAvailableOptions (cur : FilterState) (propertyName : string)
    : option (list PropertyValue) :=
  match read_property propertyName with
  | None => Some []
  | Some property =>
    let existingValues := getExistingValues propertyName in
    let otherProperties :=
      filter (fun key => key ≠ propertyName) (map_to_list cur).*1 in
    let allOthersAny :=
      forallb (fun prop => strict_equal (cur !! prop) (Some ANY_OPTION)) otherProperties in
    if allOthersAny
    then filter_options (member_options property)
           (fun option => includes existingValues (Some option))
    else availableOptions_scan cur propertyName property
  end.

Definition getFilteredItems (cur : FilterState) : list Item :=
  filter (fun item : Item =>
    forallb (fun kv : string * PropertyValue =>
      strict_equal (Some kv.2) (Some ANY_OPTION) || strict_equal (item !! kv.1) (Some kv.2))
      (map_to_list cur)) items.

(** One round of the [forEach] in [updateProperty]; [cur] is the closure
    variable [currentState] that [getAvailableOptions] reads.  The call of
    [getAvailableOptions] comes before the test for 'Any', so its raise ends
    the round whatever the selection is. *)
Definition reset_invalid (cur : FilterState) (propertyName : string)
    (newState : FilterState) (key : string) : option FilterState :=
  if bool_decide (key = propertyName) then Some newState
  else
    availableOptions ← getAvailableOptions cur key;
    Some (if negb (strict_equal (newState !! key) (Some ANY_OPTION))
             && negb (includes (map Some availableOptions) (newState !! key))
          then <[key := ANY_OPTION]> newState
          else newState).

(** [None]: the [TypeError] of a round leaves [filterStore.update] before
    anything is set; the store and [currentState] stay as they were. *)
Definition updateProperty (st : Store) (propertyName : string) (value : PropertyValue)
    : option Store :=
  writable_update (fun state =>
    let newState := <[propertyName := value]> state in
    forEach (reset_invalid (currentState st) propertyName)
      (map_to_list state).*1 newState) st.

Definition reset (st : Store) : Store := writable_set initialState.

(** The states the store can hold, starting from [writable(initialState)];
    a call of [updateProperty] that raises leaves the store where it was. *)
Inductive reachable : Store -> Prop :=
  | reachable_create : reachable create
  | reachable_updateProperty st propertyName value st' :
      reachable st -> updateProperty st propertyName value = Some st' -> reachable st'
  | reachable_reset st : reachable st -> reachable (reset st).

(** *** What the derived values are specified to be *)

(** [item] passes every dimension of the state. *)
Definition matches (cur : FilterState) (item : Item) : Prop :=
  ∀ key value, cur !! key = Some value →
    value = ANY_OPTION ∨ field_is item key value.

(** [item] passes every dimension of the state but [propertyName]. *)
Definition matches_others (cur : FilterState) (propertyName : string) (item : Item) : Prop :=
  ∀ key value, cur !! key = Some value → key ≠ propertyName →
    value = ANY_OPTION ∨ field_is item key value.

(** Some item has [option] in the field [propertyName] and passes the other
    dimensions. *)
Definition option_reachable (cur : FilterState) (propertyName : string)
    (option : PropertyValue) : Prop :=
  ∃ item, item ∈ items ∧ item !! propertyName = Some option
          ∧ matches_others cur propertyName item.

(** Every dimension but [propertyName] is unconstrained. *)
Definition all_others_any (cur : FilterState) (propertyName : string) : Prop :=
  ∀ key value, cur !! key = Some value → key ≠ propertyName → value = ANY_OPTION.

#[global] Instance matches_dec cur item : Decision (matches cur item).
Proof.
  exact (map_Forall_dec
           (λ key value, value = ANY_OPTION ∨ field_is item key value) cur).
Defined.

#[global] Instance matches_others_dec cur propertyName item :
  Decision (matches_others cur propertyName item).
Proof.
  exact (map_Forall_dec
           (λ key value, key ≠ propertyName →
                         value = ANY_OPTION ∨ field_is item key value) cur).
Defined.

#[global] Instance option_reachable_dec cur propertyName option :
  Decision (option_reachable cur propertyName option).
Proof.
  refine (cast_if (decide (Exists (λ item : Item,
            item !! propertyName = Some option
            ∧ matches_others cur propertyName item) items)));
    unfold option_reachable; rewrite Exists_exists in *; naive_solver.
Defined.

(** [getAvailableOptions] without its all-others-Any return: the general
    scan, still behind the unknown-property guard. *)
Definition getAvailableOptions_general (cur : FilterState) (propertyName : string)
    : option (list PropertyValue) :=
  match read_property propertyName with
  | None => Some []
  | Some property => availableOptions_scan cur propertyName property
  end.

(** Some item has [option] in the field [propertyName]. *)
Definition occurs_in_items (propertyName : string) (option : PropertyValue) : Prop :=
  ∃ item, item ∈ items ∧ item !! propertyName = Some option.

#[global] Instance occurs_in_items_dec propertyName option :
  Decision (occurs_in_items propertyName option).
Proof.
  refine (cast_if (decide (Exists (λ item : Item,
            item !! propertyName = Some option) items)));
    unfold occurs_in_items; rewrite Exists_exists in *; naive_solver.
Defined.

(** The configured options, in order, that occur anywhere in the items. *)
Definition options_in_items (propertyName : string) : list PropertyValue :=
  match properties !! propertyName with
  | None => []
  | Some property => filter (occurs_in_items propertyName) (options property)
  end.

End createMultiFilterStore.

End Reconciling.

(** ** createFilterStore (src/lib/index.ts) *)

Module Naive.

(** [FilterDimension<T>].  [options] is absent on an entry that [select]
    created by spreading [dims[dimension]] for a name the store did not have. *)
Record FilterDimension := {
  options : option (list PropertyValue);
  selected : PropertyValue
}.

#[global] Instance FilterDimension_eq_dec : EqDecision FilterDimension.
Proof. solve_decision. Defined.

(** The value held by the writable [store]. *)
Abbreviation Dimensions := (gmap string FilterDimension).

Section createFilterStore.

Variable items : list Item.
Variable config : gmap string (list PropertyValue).

Definition initialDimensions : Dimensions :=
  list_to_map
    (map (fun kv : string * list PropertyValue =>
            (kv.1, {| options := Some kv.2; selected := ANY_OPTION |}))
         (map_to_list config)).

(** [store.update]: [{...dims, [dimension]: {...dims[dimension], selected: value}}] *)
Definition select (dims : Dimensions) (dimension : string) (value : PropertyValue)
    : Dimensions :=
  <[dimension := {| options := dims !! dimension ≫= options; selected := value |}]> dims.

(** The callback of the derived store; [None] is the [TypeError] raised by
    [config[dimension].filter] when [config] has no such key. *)
Definition getAvailableOptions (dims : Dimensions) (dimension : string)
    : option (list PropertyValue) :=
  let otherDimensions :=
    map (fun kv : string * FilterDimension => (kv.1, selected kv.2))
        (filter (fun kv : string * FilterDimension => kv.1 ≠ dimension) (map_to_list dims)) in
  let availableItems :=
    filter (fun item : Item =>
      forallb (fun ks : string * PropertyValue =>
        strict_equal (Some ks.2) (Some ANY_OPTION) || strict_equal (item !! ks.1) (Some ks.2))
        otherDimensions) items in
  let possibleValues :=
    new_Set (map (fun item : Item => item !! dimension) availableItems) in
  match config !! dimension with
  | None => None
  | Some opts => Some (filter (fun option => includes possibleValues (Some option)) opts)
  end.

Definition filteredItems (dims : Dimensions) : list Item :=
  filter (fun item : Item =>
    forallb (fun kv : string * FilterDimension =>
      strict_equal (Some (selected kv.2)) (Some ANY_OPTION)
      || strict_equal (item !! kv.1) (Some (selected kv.2)))
      (map_to_list dims)) items.

(** [store.set(initialDimensions)] *)
Definition reset (dims : Dimensions) : Dimensions := initialDimensions.

(** The values the store can hold, starting from [writable(initialDimensions)]. *)
Inductive reachable : Dimensions -> Prop :=
  | reachable_init : reachable initialDimensions
  | reachable_select dims dimension value :
      reachable dims -> reachable (select dims dimension value)
  | reachable_reset dims : reachable dims -> reachable (reset dims).

(** *** What the derived values are specified to be *)

Definition matches (dims : Dimensions) (item : Item) : Prop :=
  ∀ key dim, dims !! key = Some dim →
    selected dim = ANY_OPTION ∨ field_is item key (selected dim).

Definition matches_others (dims : Dimensions) (dimension : string) (item : Item) : Prop :=
  ∀ key dim, dims !! key = Some dim → key ≠ dimension →
    selected dim = ANY_OPTION ∨ field_is item key (selected dim).

Definition option_reachable (dims : Dimensions) (dimension : string)
    (option : PropertyValue) : Prop :=
  ∃ item, item ∈ items ∧ item !! dimension = Some option
          ∧ matches_others dims dimension item.

#[global] Instance matches_dec dims item : Decision (matches dims item).
Proof.
  exact (map_Forall_dec
           (λ key dim, selected dim = ANY_OPTION ∨ field_is item key (selected dim))
           dims).
Defined.

#[global] Instance matches_others_dec dims dimension item :
  Decision (matches_others dims dimension item).
Proof.
  exact (map_Forall_dec
           (λ key dim, key ≠ dimension →
                       selected dim = ANY_OPTION ∨ field_is item key (selected dim))
           dims).
Defined.

#[global] Instance option_reachable_dec dims dimension option :
  Decision (option_reachable dims dimension option).
Proof.
  refine (cast_if (decide (Exists (λ item : Item,
            item !! dimension = Some option
            ∧ matches_others dims dimension item) items)));
    unfold option_reachable; rewrite Exists_exists in *; naive_solver.
Defined.

End createFilterStore.

End Naive.

(** ** FilterGroup.svelte

    The radio inputs the component renders from its props: one for 'Any',
    then one per entry of [options]. *)

Module FilterGroup.

Record Radio := {
  value : PropertyValue;
  checked : bool;
  disabled : bool
}.

Section FilterGroup.

(** [export let options], [export let value] ([None] when the prop is
    [undefined]) and [export let availableOptions]. *)
Variable options : list PropertyValue.
Variable selected_value : JsValue.
Variable availableOptions : list PropertyValue.

Definition any_radio : Radio :=
  {| value := ANY_OPTION;
     checked := strict_equal selected_value (Some ANY_OPTION);
     disabled := false |}.

(** The body of [{#each options as option}]. *)
Definition option_radio (option : PropertyValue) : Radio :=
  let isAvailable := includes (map Some availableOptions) (Some option) in
  {| value := option;
     checked := strict_equal selected_value (Some option);
     disabled := negb isAvailable |}.

Definition radios : list Radio := any_radio :: map option_radio options.

End FilterGroup.

(** The values of the inputs a user can pick, in the order rendered. *)
Definition enabled_values (rs : list Radio) : list PropertyValue :=
  map value (filter (fun r => negb (disabled r)) rs).

End FilterGroup.

(** ** The catalogue of the README and of the demo page *)

Definition shirt_red : Item := {[ "category" := Str "Shirt"; "color" := Str "Red" ]}.
Definition pants_blue : Item := {[ "category" := Str "Pants"; "color" := Str "Blue" ]}.
Definition shirt_black : Item := {[ "category" := Str "Shirt"; "color" := Str "Black" ]}.
Definition products : list Item := [shirt_red; pants_blue; shirt_black].

Definition product_config : gmap string (list PropertyValue) :=
  {[ "category" := [Str "Shirt"; Str "Pants"; Str "Jacket"];
     "color" := [Str "Red"; Str "Blue"; Str "Black"] ]}.

Definition product_properties : gmap string Reconciling.FilterProperty :=
  {[ "category" := {| Reconciling.name := "Category";
                      Reconciling.options := [Str "Shirt"; Str "Pants"; Str "Jacket"] |};
     "color" := {| Reconciling.name := "Color";
                   Reconciling.options := [Str "Red"; Str "Blue"; Str "Black"] |} ]}.



(** Stores over the catalogue: Shirt has been chosen; then Blue; and a
    store in which only Jacket has been chosen. *)
Definition shirt_store : Reconciling.Store :=
  Reconciling.writable_set {[ "category" := Str "Shirt"; "color" := ANY_OPTION ]}.

Definition shirt_blue_store : Reconciling.Store :=
  Reconciling.writable_set {[ "category" := Str "Shirt"; "color" := Str "Blue" ]}.

Definition jacket_store : Reconciling.Store :=
  Reconciling.writable_set {[ "category" := Str "Jacket"; "color" := ANY_OPTION ]}.

(** A store that has been given a selection under the name "constructor". *)
Definition constructor_store : Reconciling.Store :=
  Reconciling.writable_set
    {[ "category" := ANY_OPTION; "color" := ANY_OPTION; "constructor" := Str "x" ]}.

(** ** Candidate properties of the stores

    Stated here so that they can be tested on the catalogue above. *)



(** A selection other than 'Any' is among its own dimension's available
    options, in every state the store can reach. *)
Definition own_selection_available (items : list Item)
    (config : gmap string (list PropertyValue)) : Prop :=
  ∀ dims dimension dim,
    Naive.reachable config dims → dims !! dimension = Some dim →
    Naive.selected dim ≠ ANY_OPTION →
    ∃ available, Naive.getAvailableOptions items config dims dimension = Some available
                 ∧ Naive.selected dim ∈ available.

Definition own_property_available (items : list Item)
    (properties : gmap string Reconciling.FilterProperty) : Prop :=
  ∀ st propertyName value,
    Reconciling.reachable items properties st →
    Reconciling.currentState st !! propertyName = Some value →
    value ≠ ANY_OPTION →
    ∃ available,
      Reconciling.getAvailableOptions items properties
        (Reconciling.currentState st) propertyName = Some available
      ∧ value ∈ available.



(** Closed, decidable facts about the catalogue are settled by evaluation. *)
Ltac by_evaluation := apply (bool_decide_unpack _); vm_compute; exact I.

Ltac evaluate_equation := lazymatch goal with |- _ = _ => by vm_compute end.

(** * Properties *)

(** ** The JavaScript helpers *)

Section js.

Implicit Types (a b x : JsValue) (l acc : list JsValue) (v : PropertyValue).

Lemma strict_equal_spec a b : strict_equal a b = true ↔ a = b ∧ a ≠ Some NaN.
Proof.
  unfold strict_equal.
  destruct a as [[s|n|]|], b as [[s'|n'|]|];
    rewrite ?bool_decide_eq_true; naive_solver.
Qed.

Lemma strict_equal_Any v : strict_equal (Some v) (Some ANY_OPTION) = true ↔ v = ANY_OPTION.
Proof. rewrite strict_equal_spec. unfold ANY_OPTION. naive_solver. Qed.

Lemma strict_equal_same_value_zero a b :
  strict_equal a b = true → same_value_zero a b = true.
Proof.
  rewrite strict_equal_spec. unfold same_value_zero.
  rewrite bool_decide_eq_true. tauto.
Qed.

Lemma includes_spec l x : includes l x = true ↔ x ∈ l.
Proof.
  unfold includes, same_value_zero. rewrite existsb_exists. split.
  - intros (y & Hy & Heq). apply bool_decide_eq_true in Heq as ->.
    by apply list_elem_of_In.
  - intros Hx. exists x. split; [by apply list_elem_of_In|].
    by apply bool_decide_eq_true.
Qed.

Lemma includes_Some (opts : list PropertyValue) v :
  includes (map Some opts) (Some v) = true ↔ v ∈ opts.
Proof.
  rewrite includes_spec. change (map Some opts) with (Some <$> opts).
  rewrite list_elem_of_fmap. naive_solver.
Qed.

Lemma elem_of_Set_fold l : ∀ acc x, x ∈ fold_left Set_add l acc ↔ x ∈ acc ∨ x ∈ l.
Proof.
  induction l as [|y l IH]; intros acc x; simpl.
  - rewrite elem_of_nil. tauto.
  - rewrite IH, elem_of_cons. unfold Set_add.
    destruct (includes acc y) eqn:Hy.
    + apply includes_spec in Hy. naive_solver.
    + rewrite elem_of_app, list_elem_of_singleton. naive_solver.
Qed.

Lemma elem_of_new_Set l x : x ∈ new_Set l ↔ x ∈ l.
Proof. unfold new_Set. rewrite elem_of_Set_fold, elem_of_nil. tauto. Qed.

Lemma NoDup_Set_fold l : ∀ acc, NoDup acc → NoDup (fold_left Set_add l acc).
Proof.
  induction l as [|y l IH]; intros acc Hacc; simpl; [done|].
  apply IH. unfold Set_add.
  destruct (includes acc y) eqn:Hy; [done|].
  apply NoDup_app. split_and!; [done| |apply NoDup_singleton].
  intros z Hz ->%list_elem_of_singleton.
  apply includes_spec in Hz. congruence.
Qed.

Lemma NoDup_new_Set l : NoDup (new_Set l).
Proof. apply NoDup_Set_fold, NoDup_nil_2. Qed.

Lemma includes_new_Set l x : includes (new_Set l) x = includes l x.
Proof.
  apply eq_true_iff_eq. rewrite !includes_spec. apply elem_of_new_Set.
Qed.

End js.

(** ** Reading a map through [Object.entries] *)

Lemma forallb_map_to_list {A} (f : string * A → bool) (m : gmap string A) :
  forallb f (map_to_list m) = true ↔ ∀ k x, m !! k = Some x → f (k, x) = true.
Proof.
  rewrite forallb_forall. split.
  - intros H k x Hk. apply H, list_elem_of_In. by apply elem_of_map_to_list.
  - intros H [k x] Hin. apply H.
    by apply elem_of_map_to_list, list_elem_of_In.
Qed.

Lemma elem_of_keys {A} (m : gmap string A) k :
  k ∈ (map_to_list m).*1 ↔ is_Some (m !! k).
Proof.
  rewrite list_elem_of_fmap. split.
  - intros ([k' x] & -> & Hin). apply elem_of_map_to_list in Hin. by exists x.
  - intros [x Hx]. exists (k, x). split; [done|]. by apply elem_of_map_to_list.
Qed.

Lemma strict_equal_field (item : Item) key value :
  strict_equal (item !! key) (Some value) = true ↔ field_is item key value.
Proof. rewrite strict_equal_spec. unfold field_is. naive_solver. Qed.

Lemma passes_dimension (item : Item) key value :
  strict_equal (Some value) (Some ANY_OPTION) || strict_equal (item !! key) (Some value) = true
  ↔ value = ANY_OPTION ∨ field_is item key value.
Proof. by rewrite orb_true_iff, strict_equal_Any, strict_equal_field. Qed.

(** A filter by a weaker test keeps at least as much, in the same order. *)
Lemma filter_weaken_sublist {A} (P Q : A → Prop)
    `{!∀ x, Decision (P x)} `{!∀ x, Decision (Q x)} (l : list A) :
  (∀ x, x ∈ l → P x → Q x) → filter P l `sublist_of` filter Q l.
Proof.
  induction l as [|x l IH]; intros HPQ; [done|].
  rewrite !filter_cons.
  assert (filter P l `sublist_of` filter Q l) as Hl.
  { apply IH. intros y Hy. apply HPQ. by right. }
  destruct (decide (P x)) as [HP|HP].
  - rewrite decide_True by (apply HPQ; [left|done]). by apply sublist_skip.
  - destruct (decide (Q x)); [by apply sublist_cons|done].
Qed.

Lemma filter_all {A} (P : A → Prop) `{!∀ x, Decision (P x)} (l : list A) :
  (∀ x, x ∈ l → P x) → filter P l = l.
Proof.
  induction l as [|x l IH]; intros HP; [done|].
  rewrite filter_cons_True by (apply HP; left).
  f_equal. apply IH. intros y Hy. apply HP. by right.
Qed.

Lemma filter_nonempty_elem {A} (P : A → Prop) `{!∀ x, Decision (P x)} (l : list A) :
  filter P l ≠ [] → ∃ x, x ∈ l ∧ P x.
Proof.
  intros Hne. destruct (filter P l) as [|x l'] eqn:Hf; [done|].
  assert (x ∈ filter P l) as Hx by (rewrite Hf; left).
  apply list_elem_of_filter in Hx as [HP Hin]. by exists x.
Qed.

(** ** createMultiFilterStore *)

Section reconciling_facts.

Import Reconciling.

Variable items : list Item.
Variable properties : gmap string FilterProperty.

Implicit Types (cur : FilterState) (st : Store) (item : Item).

Lemma getFilteredItems_matches cur :
  getFilteredItems items cur = filter (matches cur) items.
Proof.
  unfold getFilteredItems. apply list_filter_iff. intros item.
  rewrite Is_true_true, forallb_map_to_list. unfold matches.
  split; intros H key value Hk; apply passes_dimension, (H key value Hk).
Qed.

Lemma scan_dimension_test propertyName item key value :
  (if bool_decide (key = propertyName) || strict_equal (Some value) (Some ANY_OPTION)
   then true else strict_equal (item !! key) (Some value)) = true
  ↔ (key ≠ propertyName → value = ANY_OPTION ∨ field_is item key value).
Proof.
  destruct (decide (key = propertyName)) as [Heq|Hne].
  { rewrite bool_decide_eq_true_2 by done. cbn [orb]. tauto. }
  rewrite bool_decide_eq_false_2 by done. cbn [orb].
  pose proof (strict_equal_Any value) as Hany.
  pose proof (strict_equal_field item key value) as Hfield.
  destruct (strict_equal (Some value) (Some ANY_OPTION)); [tauto|].
  split.
  - intros Hs _. right. by apply Hfield.
  - intros H. destruct (H Hne) as [Hv|Hf]; [|by apply Hfield].
    apply Hany in Hv. discriminate.
Qed.

Lemma scan_test cur propertyName item :
  forallb (λ kv : string * PropertyValue,
    if bool_decide (kv.1 = propertyName) || strict_equal (Some kv.2) (Some ANY_OPTION)
    then true else strict_equal (item !! kv.1) (Some kv.2)) (map_to_list cur) = true
  ↔ matches_others cur propertyName item.
Proof.
  rewrite forallb_map_to_list. unfold matches_others.
  split; intros H key value Hk.
  - apply scan_dimension_test, (H key value Hk).
  - apply scan_dimension_test. cbn [fst snd]. by apply H.
Qed.

Lemma availableOptions_scan_reachable cur propertyName property :
  availableOptions_scan items cur propertyName (Own property)
  = Some (filter (option_reachable items cur propertyName) (options property)).
Proof.
  unfold availableOptions_scan, filter_options.
  cbn [member_options fmap option_fmap option_map]. f_equal.
  apply list_filter_iff. intros option.
  rewrite Is_true_true, includes_spec, elem_of_new_Set.
  change (map ?f ?l) with (f <$> l). rewrite list_elem_of_fmap.
  unfold option_reachable. split.
  - intros (item & Heq & Hin). apply list_elem_of_filter in Hin as [Hp Hin].
    apply Is_true_true, scan_test in Hp. by exists item.
  - intros (item & Hin & Heq & Hm). exists item. split; [done|].
    apply list_elem_of_filter. split; [|done]. by apply Is_true_true, scan_test.
Qed.

Lemma allOthersAny_test cur propertyName :
  forallb (λ prop, strict_equal (cur !! prop) (Some ANY_OPTION))
    (filter (λ key, key ≠ propertyName) (map_to_list cur).*1) = true
  ↔ all_others_any cur propertyName.
Proof.
  rewrite forallb_forall. unfold all_others_any. split.
  - intros H key value Hk Hne.
    assert (strict_equal (cur !! key) (Some ANY_OPTION) = true) as Hs.
    { apply H, list_elem_of_In, list_elem_of_filter. split; [done|].
      apply elem_of_keys. by exists value. }
    rewrite Hk in Hs. by apply strict_equal_Any.
  - intros H key Hin. apply list_elem_of_In, list_elem_of_filter in Hin as [Hne Hin].
    apply elem_of_keys in Hin as [value Hk]. rewrite Hk.
    apply strict_equal_Any. by apply (H key).
Qed.

Lemma all_others_any_matches cur propertyName item :
  all_others_any cur propertyName → matches_others cur propertyName item.
Proof. intros H key value Hk Hne. left. by apply (H key). Qed.

Lemma existing_values_test propertyName option :
  includes (getExistingValues items propertyName) (Some option) = true
  ↔ occurs_in_items items propertyName option.
Proof.
  unfold getExistingValues, occurs_in_items.
  rewrite includes_spec, elem_of_new_Set.
  change (map ?f ?l) with (f <$> l). rewrite list_elem_of_fmap. naive_solver.
Qed.

Lemma shortcut_reachable cur propertyName property :
  all_others_any cur propertyName →
  filter (λ option, includes (getExistingValues items propertyName) (Some option))
    (options property)
  = filter (option_reachable items cur propertyName) (options property).
Proof.
  intros Hany. apply list_filter_iff. intros option.
  rewrite Is_true_true, existing_values_test.
  unfold occurs_in_items, option_reachable. split.
  - intros (item & Hin & Heq). exists item. split_and!; [done..|].
    by apply all_others_any_matches.
  - intros (item & Hin & Heq & _). by exists item.
Qed.

(** The outcome of [getAvailableOptions], case by case: the reachable
    options of a configured property; a raise for a name that is not
    configured but inherited; the empty list for any other name. *)
Lemma getAvailableOptions_reachable cur propertyName :
  getAvailableOptions items properties cur propertyName
  = match properties !! propertyName with
    | Some property =>
      Some (filter (option_reachable items cur propertyName) (options property))
    | None => if inherited propertyName then None else Some []
    end.
Proof.
  unfold getAvailableOptions, read_property.
  destruct (properties !! propertyName) as [property|].
  - cbn zeta. destruct (forallb _ _) eqn:Hall.
    + unfold filter_options. cbn [member_options fmap option_fmap option_map].
      f_equal. apply shortcut_reachable. by apply allOthersAny_test.
    + apply availableOptions_scan_reachable.
  - destruct (inherited propertyName); [|done].
    cbn zeta. by destruct (forallb _ _).
Qed.

Lemma getAvailableOptions_general_eq cur propertyName :
  getAvailableOptions_general items properties cur propertyName
  = match properties !! propertyName with
    | Some property =>
      Some (filter (option_reachable items cur propertyName) (options property))
    | None => if inherited propertyName then None else Some []
    end.
Proof.
  unfold getAvailableOptions_general, read_property.
  destruct (properties !! propertyName) as [property|].
  - apply availableOptions_scan_reachable.
  - by destruct (inherited propertyName).
Qed.

Lemma getAvailableOptions_raises cur propertyName :
  getAvailableOptions items properties cur propertyName = None
  ↔ properties !! propertyName = None ∧ inherited propertyName = true.
Proof.
  rewrite getAvailableOptions_reachable.
  destruct (properties !! propertyName), (inherited propertyName); naive_solver.
Qed.

(** *** The initial state *)

Lemma fold_insert_any_lookup (keys : list string) : ∀ (acc : FilterState) k,
  fold_left (λ acc key, <[key := ANY_OPTION]> acc) keys acc !! k
  = if decide (k ∈ keys) then Some ANY_OPTION else acc !! k.
Proof.
  induction keys as [|key keys IH]; intros acc k; cbn [fold_left].
  - by rewrite decide_False by apply not_elem_of_nil.
  - rewrite IH. destruct (decide (k ∈ keys)) as [Hin|Hnin].
    + rewrite decide_True by (by right). done.
    + destruct (decide (k = key)) as [->|Hne].
      * rewrite decide_True by left. apply lookup_insert_eq.
      * rewrite decide_False by (rewrite elem_of_cons; tauto).
        by apply lookup_insert_ne.
Qed.

Lemma initialState_lookup k :
  initialState properties !! k
  = if decide (is_Some (properties !! k)) then Some ANY_OPTION else None.
Proof.
  unfold initialState. rewrite fold_insert_any_lookup, lookup_empty.
  destruct (decide (k ∈ _)) as [Hin|Hnin], (decide (is_Some _)) as [Hs|Hs];
    try done; rewrite elem_of_keys in *; contradiction.
Qed.

Lemma initialState_all_any k v : initialState properties !! k = Some v → v = ANY_OPTION.
Proof. rewrite initialState_lookup. case_decide; congruence. Qed.

(** *** [updateProperty] *)

Lemma invalid_test (l : list PropertyValue) x :
  negb (strict_equal (Some x) (Some ANY_OPTION)) && negb (includes (map Some l) (Some x)) = true
  ↔ x ≠ ANY_OPTION ∧ x ∉ l.
Proof.
  rewrite andb_true_iff, !negb_true_iff.
  rewrite <-!not_true_iff_false, strict_equal_Any, includes_Some. done.
Qed.

(** A round that returns changes at most the entry of its key, and that
    entry by the old selection alone. *)
Lemma reset_invalid_lookup cur propertyName (newState newState' : FilterState) key k :
  reset_invalid items properties cur propertyName newState key = Some newState' →
  newState' !! k
  = if decide (k = key ∧ key ≠ propertyName)
    then match newState !! key with
         | Some x =>
           if decide (x ≠ ANY_OPTION
                      ∧ x ∉ default [] (getAvailableOptions items properties cur key))
           then Some ANY_OPTION else Some x
         | None => Some ANY_OPTION
         end
    else newState !! k.
Proof.
  unfold reset_invalid. case_bool_decide as Hkey.
  { intros [= <-]. rewrite decide_False; [done|]. tauto. }
  destruct (getAvailableOptions items properties cur key) as [available|]; [|done].
  cbn. intros [= <-].
  destruct (decide (k = key)) as [->|Hne].
  - rewrite decide_True by done.
    destruct (newState !! key) as [x|] eqn:Hx.
    + pose proof (invalid_test available x) as Htest.
      destruct (_ && _); case_decide as Hd.
      * apply lookup_insert_eq.
      * destruct Hd. by apply Htest.
      * apply Htest in Hd. discriminate.
      * done.
    + assert (includes (map Some available) None = false) as ->.
      { apply not_true_iff_false. rewrite includes_spec.
        change (map Some available) with (Some <$> available).
        rewrite list_elem_of_fmap. by intros (? & ? & _). }
      cbn. apply lookup_insert_eq.
  - rewrite decide_False by tauto.
    destruct (_ && _); [by rewrite lookup_insert_ne|done].
Qed.

Lemma reset_invalid_raises cur propertyName (newState : FilterState) key :
  reset_invalid items properties cur propertyName newState key = None
  ↔ key ≠ propertyName ∧ getAvailableOptions items properties cur key = None.
Proof.
  unfold reset_invalid. case_bool_decide as Hkey; [naive_solver|].
  destruct (getAvailableOptions items properties cur key); cbn; naive_solver.
Qed.

(** The [forEach] raises exactly when one of its rounds does, and which
    rounds raise does not depend on the state. *)
Lemma forEach_reset_invalid_raises cur propertyName (keys : list string) :
  ∀ newState : FilterState,
  forEach (reset_invalid items properties cur propertyName) keys newState = None
  ↔ ∃ key, key ∈ keys ∧ key ≠ propertyName
           ∧ getAvailableOptions items properties cur key = None.
Proof.
  induction keys as [|key keys IH]; intros newState; cbn [forEach].
  - split; [done|]. intros (key & Hin & _). by apply elem_of_nil in Hin.
  - destruct (reset_invalid items properties cur propertyName newState key)
      as [newState'|] eqn:Hround; cbn.
    + rewrite IH. split.
      * intros (k & Hin & Hk). exists k. split; [by right|done].
      * intros (k & Hin & Hne & Hk). apply elem_of_cons in Hin as [->|Hin].
        -- assert (reset_invalid items properties cur propertyName newState key = None)
             as Hnone by (by apply reset_invalid_raises).
           congruence.
        -- by exists k.
    + split; [|done]. intros _. apply reset_invalid_raises in Hround.
      exists key. split; [left|done].
Qed.

(** When it returns, each key has been through its round once. *)
Lemma forEach_reset_invalid_lookup cur propertyName (keys : list string) :
  NoDup keys → ∀ (newState newState' : FilterState) k,
  forEach (reset_invalid items properties cur propertyName) keys newState = Some newState' →
  newState' !! k
  = if decide (k ∈ keys ∧ k ≠ propertyName)
    then match newState !! k with
         | Some x =>
           if decide (x ≠ ANY_OPTION
                      ∧ x ∉ default [] (getAvailableOptions items properties cur k))
           then Some ANY_OPTION else Some x
         | None => Some ANY_OPTION
         end
    else newState !! k.
Proof.
  induction keys as [|key keys IH]; intros Hnd newState newState' k; cbn [forEach].
  - intros [= <-]. rewrite decide_False; [done|].
    intros [Hin _]. by apply elem_of_nil in Hin.
  - apply NoDup_cons in Hnd as [Hkey Hnd].
    destruct (reset_invalid items properties cur propertyName newState key)
      as [newState1|] eqn:Hround; [|done].
    cbn. intros Hrest. rewrite (IH Hnd _ _ _ Hrest).
    pose proof (reset_invalid_lookup _ _ _ _ _ k Hround) as Hk.
    destruct (decide (k = key)) as [->|Hne].
    + rewrite decide_False by tauto. rewrite Hk.
      destruct (decide (key ≠ propertyName)) as [Hp|Hp].
      * rewrite !decide_True; [done|split; [left|done]|done].
      * rewrite !decide_False; [done| |]; tauto.
    + rewrite decide_False in Hk by tauto. rewrite Hk.
      destruct (decide (k ∈ keys ∧ k ≠ propertyName)) as [[Hin Hp]|Hno].
      * rewrite decide_True; [done|]. split; [by right|done].
      * rewrite decide_False; [done|]. rewrite elem_of_cons. tauto.
Qed.

(** [updateProperty] raises exactly when some other key of the state is
    neither configured nor free of an inherited member. *)
Lemma updateProperty_raises st propertyName value :
  updateProperty items properties st propertyName value = None
  ↔ ∃ key, is_Some (filterStore st !! key) ∧ key ≠ propertyName
           ∧ properties !! key = None ∧ inherited key = true.
Proof.
  unfold updateProperty, writable_update.
  rewrite fmap_None, forEach_reset_invalid_raises.
  setoid_rewrite elem_of_keys. by setoid_rewrite getAvailableOptions_raises.
Qed.

(** When it returns, each dimension other than the updated one has been
    judged against the options available in [currentState st], the state
    before the update. *)
Lemma updateProperty_lookup st propertyName value st' k :
  updateProperty items properties st propertyName value = Some st' →
  currentState st' !! k
  = if decide (k = propertyName) then Some value
    else match filterStore st !! k with
         | Some x =>
           if decide (x ≠ ANY_OPTION
                      ∧ x ∉ default [] (getAvailableOptions items properties
                                          (currentState st) k))
           then Some ANY_OPTION else Some x
         | None => None
         end.
Proof.
  unfold updateProperty, writable_update. intros Hupdate.
  apply fmap_Some in Hupdate as (newState' & Hloop & ->).
  cbn [currentState writable_set].
  rewrite (forEach_reset_invalid_lookup _ _ _ (NoDup_fst_map_to_list _) _ _ k Hloop).
  destruct (decide (k = propertyName)) as [->|Hne].
  - rewrite decide_False by tauto. apply lookup_insert_eq.
  - rewrite lookup_insert_ne by done.
    destruct (filterStore st !! k) as [x|] eqn:Hk.
    + rewrite decide_True; [done|]. split; [|done]. apply elem_of_keys. by exists x.
    + rewrite decide_False; [done|]. rewrite elem_of_keys, Hk. by intros [[? ?] _].
Qed.

(** A returning update has asked for the available options of every other
    key, and got them. *)
Lemma updateProperty_available st propertyName value st' k :
  updateProperty items properties st propertyName value = Some st' →
  is_Some (filterStore st !! k) → k ≠ propertyName →
  is_Some (getAvailableOptions items properties (currentState st) k).
Proof.
  intros Hupdate Hk Hne.
  destruct (getAvailableOptions items properties (currentState st) k) eqn:Hav;
    [by eexists|].
  assert (updateProperty items properties st propertyName value = None) as Hnone.
  { apply updateProperty_raises. exists k. apply getAvailableOptions_raises in Hav.
    tauto. }
  congruence.
Qed.

Lemma updateProperty_synced st propertyName value st' :
  updateProperty items properties st propertyName value = Some st' →
  filterStore st' = currentState st'.
Proof.
  unfold updateProperty, writable_update. intros Hupdate.
  by apply fmap_Some in Hupdate as (newState' & _ & ->).
Qed.

Lemma updateProperty_writable_set st propertyName value st' :
  updateProperty items properties st propertyName value = Some st' →
  st' = writable_set (currentState st').
Proof.
  unfold updateProperty, writable_update. intros Hupdate.
  by apply fmap_Some in Hupdate as (newState' & _ & ->).
Qed.

Lemma reachable_synced st : reachable items properties st → filterStore st = currentState st.
Proof. destruct 1; [done| |done]. by eapply updateProperty_synced. Qed.

End reconciling_facts.

(** ** createFilterStore *)

Section naive_facts.

Import Naive.

Variable items : list Item.
Variable config : gmap string (list PropertyValue).

Implicit Types (dims : Dimensions) (item : Item).

Lemma filteredItems_matches dims :
  filteredItems items dims = filter (matches dims) items.
Proof.
  unfold filteredItems. apply list_filter_iff. intros item.
  rewrite Is_true_true, forallb_map_to_list. unfold matches.
  split; intros H key dim Hk; apply passes_dimension, (H key dim Hk).
Qed.

Lemma otherDimensions_test dims dimension item :
  forallb (λ ks : string * PropertyValue,
    strict_equal (Some ks.2) (Some ANY_OPTION) || strict_equal (item !! ks.1) (Some ks.2))
    (map (λ kv : string * FilterDimension, (kv.1, selected kv.2))
       (filter (λ kv : string * FilterDimension, kv.1 ≠ dimension) (map_to_list dims))) = true
  ↔ matches_others dims dimension item.
Proof.
  rewrite forallb_forall. unfold matches_others. split.
  - intros H key dim Hk Hne. apply passes_dimension.
    apply (H (key, selected dim)), in_map_iff. exists (key, dim). split; [done|].
    apply list_elem_of_In, list_elem_of_filter. split; [done|].
    by apply elem_of_map_to_list.
  - intros H ks Hin. apply in_map_iff in Hin as ([key dim] & <- & Hin).
    apply list_elem_of_In, list_elem_of_filter in Hin as [Hne Hin].
    apply elem_of_map_to_list in Hin. apply passes_dimension. by apply H.
Qed.

Lemma naive_getAvailableOptions_reachable dims dimension :
  getAvailableOptions items config dims dimension
  = filter (option_reachable items dims dimension) <$> config !! dimension.
Proof.
  unfold getAvailableOptions. destruct (config !! dimension) as [opts|]; [|done].
  cbn [fmap option_fmap option_map]. f_equal.
  apply list_filter_iff. intros option.
  rewrite Is_true_true, includes_spec, elem_of_new_Set.
  change (map ?f ?l) with (f <$> l) at 1. rewrite list_elem_of_fmap.
  unfold option_reachable. split.
  - intros (item & Heq & Hin). apply list_elem_of_filter in Hin as [Hp Hin].
    apply Is_true_true, otherDimensions_test in Hp. by exists item.
  - intros (item & Hin & Heq & Hm). exists item. split; [done|].
    apply list_elem_of_filter. split; [|done].
    by apply Is_true_true, otherDimensions_test.
Qed.

Lemma initialDimensions_fmap :
  initialDimensions config
  = (λ opts, {| options := Some opts; selected := ANY_OPTION |}) <$> config.
Proof.
  unfold initialDimensions.
  rewrite <-(list_to_map_to_list config) at 2.
  rewrite <-list_to_map_fmap. f_equal.
Qed.

Lemma initialDimensions_lookup k :
  initialDimensions config !! k
  = (λ opts, {| options := Some opts; selected := ANY_OPTION |}) <$> config !! k.
Proof. by rewrite initialDimensions_fmap, lookup_fmap. Qed.

Lemma initialDimensions_all_any k dim :
  initialDimensions config !! k = Some dim → selected dim = ANY_OPTION.
Proof.
  rewrite initialDimensions_lookup. destruct (config !! k); [|done].
  by intros [= <-].
Qed.

Lemma select_lookup dims dimension value k :
  select dims dimension value !! k
  = if decide (k = dimension)
    then Some {| options := dims !! dimension ≫= options; selected := value |}
    else dims !! k.
Proof.
  unfold select. case_decide as Hk.
  - subst. apply lookup_insert_eq.
  - by apply lookup_insert_ne.
Qed.

End naive_facts.

(** ** The derived views *)

Section derived_views.

Variable items : list Item.
Variable config : gmap string (list PropertyValue).
Variable properties : gmap string Reconciling.FilterProperty.

Implicit Types (dims : Naive.Dimensions) (cur : Reconciling.FilterState).
Implicit Types (st : Reconciling.Store) (item : Item).

(** C1: the filtered items are exactly the items that pass every dimension
    of the state (the selection is 'Any', or the item's field of that name
    is strictly equal to it), kept in the order of [items]; this holds for
    [filteredItems] of createFilterStore and for [getFilteredItems] of
    createMultiFilterStore. *)
Theorem filtered_items_exact dims cur :
  Naive.filteredItems items dims = filter (Naive.matches dims) items
  ∧ Naive.filteredItems items dims `sublist_of` items
  ∧ Reconciling.getFilteredItems items cur = filter (Reconciling.matches cur) items
  ∧ Reconciling.getFilteredItems items cur `sublist_of` items.
Proof.
  rewrite filteredItems_matches, getFilteredItems_matches.
  split_and!; try done; apply sublist_filter.
Qed.

Lemma naive_matches_others_select dims dimension value item :
  Naive.matches_others (Naive.select dims dimension value) dimension item
  ↔ Naive.matches_others dims dimension item.
Proof.
  unfold Naive.matches_others. split; intros H key dim Hk Hne.
  - apply (H key dim); [|done]. by rewrite select_lookup, decide_False.
  - apply (H key dim); [|done]. by rewrite select_lookup, decide_False in Hk.
Qed.

Lemma matches_others_insert cur propertyName value item :
  Reconciling.matches_others (<[propertyName := value]> cur) propertyName item
  ↔ Reconciling.matches_others cur propertyName item.
Proof.
  unfold Reconciling.matches_others. split; intros H key x Hk Hne.
  - apply (H key x); [|done]. by rewrite lookup_insert_ne.
  - apply (H key x); [|done]. by rewrite lookup_insert_ne in Hk.
Qed.

(** C2: the available options of a dimension are exactly the values of its
    configured option list, in that order, for which some item has the value
    in the dimension's field and passes every other dimension of the state;
    the dimension's own selection plays no part.  (For a name without a
    configured list, createFilterStore raises, the [None] below;
    createMultiFilterStore returns the empty list, or raises when the name
    is one that [properties] inherits a member under.) *)
Theorem available_options_exact dims cur dimension :
  Naive.getAvailableOptions items config dims dimension
  = filter (Naive.option_reachable items dims dimension) <$> config !! dimension
  ∧ Reconciling.getAvailableOptions items properties cur dimension
    = match properties !! dimension with
      | Some property =>
        Some (filter (Reconciling.option_reachable items cur dimension)
                (Reconciling.options property))
      | None => if inherited dimension then None else Some []
      end
  ∧ (∀ value,
       Naive.getAvailableOptions items config (Naive.select dims dimension value) dimension
       = Naive.getAvailableOptions items config dims dimension)
  ∧ (∀ value,
       Reconciling.getAvailableOptions items properties (<[dimension := value]> cur) dimension
       = Reconciling.getAvailableOptions items properties cur dimension).
Proof.
  split_and!.
  - apply naive_getAvailableOptions_reachable.
  - apply getAvailableOptions_reachable.
  - intros value. rewrite !naive_getAvailableOptions_reachable.
    destruct (config !! dimension) as [opts|]; [|done].
    cbn [fmap option_fmap option_map]. f_equal.
    apply list_filter_iff. intros option. unfold Naive.option_reachable.
    by setoid_rewrite naive_matches_others_select.
  - intros value. rewrite !getAvailableOptions_reachable.
    destruct (properties !! dimension) as [property|]; [|done].
    f_equal. apply list_filter_iff. intros option.
    unfold Reconciling.option_reachable.
    by setoid_rewrite matches_others_insert.
Qed.

(** The two stores compute the same available options from the same
    selections. *)
Lemma option_reachable_selected dims dimension option :
  Naive.option_reachable items dims dimension option
  ↔ Reconciling.option_reachable items (Naive.selected <$> dims) dimension option.
Proof.
  unfold Naive.option_reachable, Reconciling.option_reachable.
  assert (∀ item, Naive.matches_others dims dimension item
                  ↔ Reconciling.matches_others (Naive.selected <$> dims) dimension item)
    as Hm.
  { intros item. unfold Naive.matches_others, Reconciling.matches_others. split.
    - intros H key value. rewrite lookup_fmap.
      destruct (dims !! key) as [dim|] eqn:Hk; [|done].
      intros [= <-] Hne. by apply (H key).
    - intros H key dim Hk Hne. apply (H key); [|done].
      by rewrite lookup_fmap, Hk. }
  by setoid_rewrite Hm.
Qed.

Lemma stores_agree_on_available_options dims dimension :
  Naive.getAvailableOptions items (Reconciling.options <$> properties) dims dimension
  = properties !! dimension
    ≫= λ _, Reconciling.getAvailableOptions items properties
              (Naive.selected <$> dims) dimension.
Proof.
  rewrite naive_getAvailableOptions_reachable, getAvailableOptions_reachable, lookup_fmap.
  destruct (properties !! dimension) as [property|]; [|done].
  cbn. f_equal.
  apply list_filter_iff. intros option. apply option_reachable_selected.
Qed.

(** C7: when every dimension other than the target is 'Any', the early
    return of createMultiFilterStore's [getAvailableOptions] gives the same
    outcome as the general scan below it: for a configured target the
    configured options, in order, that occur in the target field of some
    item (for a name that is not configured, the empty list, or the same
    raise on both paths when the name is an inherited one).  For a
    configured target it is also the list that createFilterStore's
    [getAvailableOptions], which has no early return, computes from the same
    options and selections. *)
Theorem all_others_any_shortcut_agrees cur propertyName :
  Reconciling.all_others_any cur propertyName →
  Reconciling.getAvailableOptions items properties cur propertyName
  = Reconciling.getAvailableOptions_general items properties cur propertyName
  ∧ Reconciling.getAvailableOptions items properties cur propertyName
    = (if bool_decide (properties !! propertyName = None) && inherited propertyName
       then None
       else Some (Reconciling.options_in_items items properties propertyName))
  ∧ (∀ dims, Naive.selected <$> dims = cur →
       Naive.getAvailableOptions items (Reconciling.options <$> properties) dims propertyName
       = properties !! propertyName
         ≫= λ _, Reconciling.getAvailableOptions items properties cur propertyName).
Proof.
  intros Hany. split_and!.
  - by rewrite getAvailableOptions_reachable, getAvailableOptions_general_eq.
  - rewrite getAvailableOptions_reachable. unfold Reconciling.options_in_items.
    destruct (properties !! propertyName) as [property|].
    + rewrite bool_decide_eq_false_2 by done. cbn [andb]. f_equal.
      apply list_filter_iff. intros option.
      unfold Reconciling.option_reachable, Reconciling.occurs_in_items. split.
      * intros (item & Hin & Heq & _). by exists item.
      * intros (item & Hin & Heq). exists item. split_and!; [done..|].
        by apply all_others_any_matches.
    + rewrite bool_decide_eq_true_2 by done. cbn [andb].
      by destruct (inherited propertyName).
  - intros dims <-. apply stores_agree_on_available_options.
Qed.

(** C8: a state whose selections are all 'Any' filters nothing out, so the
    filtered items are the whole collection in its original order; and after
    [reset], from whatever state, the filtered items are the whole
    collection, in both stores. *)
Theorem all_any_keeps_every_item dims cur before st :
  (∀ key dim, dims !! key = Some dim → Naive.selected dim = ANY_OPTION) →
  (∀ key value, cur !! key = Some value → value = ANY_OPTION) →
  Naive.filteredItems items dims = items
  ∧ Reconciling.getFilteredItems items cur = items
  ∧ Naive.filteredItems items (Naive.reset config before) = items
  ∧ Reconciling.getFilteredItems items
      (Reconciling.currentState (Reconciling.reset properties st)) = items.
Proof.
  intros Hdims Hcur.
  assert (∀ dims', (∀ key dim, dims' !! key = Some dim → Naive.selected dim = ANY_OPTION) →
                   Naive.filteredItems items dims' = items) as Hnaive.
  { intros dims' Hany. rewrite filteredItems_matches.
    apply filter_all. intros item _ key dim Hk.
    left. by apply (Hany key). }
  assert (∀ cur', (∀ key value, cur' !! key = Some value → value = ANY_OPTION) →
                  Reconciling.getFilteredItems items cur' = items) as Hrec.
  { intros cur' Hany. rewrite getFilteredItems_matches.
    apply filter_all. intros item _ key value Hk.
    left. by apply (Hany key). }
  split_and!.
  - by apply Hnaive.
  - by apply Hrec.
  - apply Hnaive. unfold Naive.reset. apply initialDimensions_all_any.
  - apply Hrec. unfold Reconciling.reset, Reconciling.writable_set.
    cbn [Reconciling.currentState]. apply initialState_all_any.
Qed.

(** C10: replacing one dimension's selection by 'Any' never removes a
    result: the items filtered under a state are a subsequence of those
    filtered under the relaxed state, in both stores, and also when the
    relaxation goes through [updateProperty] and that call returns. *)
Theorem relaxing_a_dimension_keeps_results dims cur st dimension :
  Naive.filteredItems items dims
    `sublist_of` Naive.filteredItems items (Naive.select dims dimension ANY_OPTION)
  ∧ Reconciling.getFilteredItems items cur
      `sublist_of` Reconciling.getFilteredItems items (<[dimension := ANY_OPTION]> cur)
  ∧ (∀ st',
       Reconciling.updateProperty items properties st dimension ANY_OPTION = Some st' →
       Reconciling.getFilteredItems items (Reconciling.filterStore st)
         `sublist_of` Reconciling.getFilteredItems items (Reconciling.currentState st')).
Proof.
  split_and!.
  - rewrite !filteredItems_matches.
    apply filter_weaken_sublist. intros item _ Hm key x.
    rewrite select_lookup. case_decide as Hk.
    + intros [= <-]. by left.
    + apply Hm.
  - rewrite !getFilteredItems_matches.
    apply filter_weaken_sublist. intros item _ Hm key x.
    rewrite lookup_insert. case_decide as Hk.
    + intros [= <-]. by left.
    + apply Hm.
  - intros st' Hupdate. rewrite !getFilteredItems_matches.
    apply filter_weaken_sublist. intros item _ Hm key x.
    rewrite (updateProperty_lookup _ _ _ _ _ _ _ Hupdate). case_decide as Hk.
    + intros [= <-]. by left.
    + destruct (Reconciling.filterStore st !! key) as [y|] eqn:Hy; [|done].
      case_decide; intros [= <-]; [by left|]. by apply Hm.
Qed.

End derived_views.

(** C7 on the catalogue: colour is selected, category is not. *)
Lemma all_others_any_shortcut_agrees_witness :
  Reconciling.all_others_any
    (<["color" := Str "Blue"]> (Reconciling.initialState product_properties)) "color"
  ∧ Reconciling.getAvailableOptions products product_properties
      (<["color" := Str "Blue"]> (Reconciling.initialState product_properties)) "color"
    = Reconciling.getAvailableOptions_general products product_properties
        (<["color" := Str "Blue"]> (Reconciling.initialState product_properties)) "color"
  ∧ Reconciling.getAvailableOptions products product_properties
      (<["color" := Str "Blue"]> (Reconciling.initialState product_properties)) "color"
    = (if bool_decide (product_properties !! "color" = None) && inherited "color"
       then None
       else Some (Reconciling.options_in_items products product_properties "color"))
  ∧ (∀ dims,
       Naive.selected <$> dims
       = <["color" := Str "Blue"]> (Reconciling.initialState product_properties) →
       Naive.getAvailableOptions products (Reconciling.options <$> product_properties)
         dims "color"
       = product_properties !! "color"
         ≫= λ _, Reconciling.getAvailableOptions products product_properties
                   (<["color" := Str "Blue"]> (Reconciling.initialState product_properties))
                   "color").
Proof.
  assert (Reconciling.all_others_any
            (<["color" := Str "Blue"]> (Reconciling.initialState product_properties))
            "color") as Hany.
  { change (map_Forall (λ key value, key ≠ "color" → value = ANY_OPTION)
              (<["color" := Str "Blue"]> (Reconciling.initialState product_properties))).
    by_evaluation. }
  split; [exact Hany|].
  exact (all_others_any_shortcut_agrees products product_properties _ "color" Hany).
Defined.

(** C8 on the catalogue: the freshly created stores, and [reset] from
    stores that hold selections. *)
Lemma all_any_keeps_every_item_witness :
  Naive.filteredItems products (Naive.initialDimensions product_config) = products
  ∧ Reconciling.getFilteredItems products (Reconciling.initialState product_properties)
    = products
  ∧ Naive.filteredItems products
      (Naive.reset product_config
         (Naive.select (Naive.initialDimensions product_config) "category" (Str "Jacket")))
    = products
  ∧ Reconciling.getFilteredItems products
      (Reconciling.currentState (Reconciling.reset product_properties shirt_blue_store))
    = products.
Proof.
  apply (all_any_keeps_every_item products product_config product_properties).
  - change (map_Forall (λ _ dim, Naive.selected dim = ANY_OPTION)
              (Naive.initialDimensions product_config)).
    by_evaluation.
  - change (map_Forall (λ _ value, value = ANY_OPTION)
              (Reconciling.initialState product_properties)).
    by_evaluation.
Defined.

(** ** createFilterStore: [select] *)

Section naive_select.

Variable items : list Item.
Variable config : gmap string (list PropertyValue).

Implicit Types (dims : Naive.Dimensions) (item : Item).

(** Every configured dimension stays in the store, with its configured list. *)
Lemma reachable_keeps_config dims dimension opts :
  Naive.reachable config dims → config !! dimension = Some opts →
  ∃ dim, dims !! dimension = Some dim ∧ Naive.options dim = Some opts.
Proof.
  intros Hreach Hcfg.
  assert (∃ dim, Naive.initialDimensions config !! dimension = Some dim
                 ∧ Naive.options dim = Some opts) as Hinit.
  { rewrite initialDimensions_lookup, Hcfg. by eexists. }
  induction Hreach as [|dims d value Hreach (dim & Hd & Hopts)|dims Hreach IH]; [done| |done].
  rewrite select_lookup. case_decide as Heq; [|by exists dim].
  subst d. eexists. split; [done|]. by rewrite Hd.
Qed.

(** C9: in createFilterStore, [select] on a configured dimension replaces
    that dimension's selection and nothing else: its options list is kept,
    and every other entry of the state, selection and options list alike, is
    the one it was, whatever the other selections are. *)
Theorem select_changes_one_selection dims dimension opts value :
  Naive.reachable config dims →
  config !! dimension = Some opts →
  Naive.select dims dimension value !! dimension
  = Some {| Naive.options := Some opts; Naive.selected := value |}
  ∧ (∀ key, key ≠ dimension → Naive.select dims dimension value !! key = dims !! key).
Proof.
  intros Hreach Hcfg.
  destruct (reachable_keeps_config dims dimension opts Hreach Hcfg) as (dim & Hd & Hopts).
  split.
  - rewrite select_lookup, decide_True by done. by rewrite Hd; cbn; rewrite Hopts.
  - intros key Hne. by rewrite select_lookup, decide_False.
Qed.

End naive_select.

(** C9 on the catalogue: Blue is chosen while Shirt is selected. *)
Lemma select_changes_one_selection_witness :
  Naive.reachable product_config
    (Naive.select (Naive.initialDimensions product_config) "category" (Str "Shirt"))
  ∧ product_config !! "color" = Some [Str "Red"; Str "Blue"; Str "Black"]
  ∧ Naive.select
      (Naive.select (Naive.initialDimensions product_config) "category" (Str "Shirt"))
      "color" (Str "Blue") !! "color"
    = Some {| Naive.options := Some [Str "Red"; Str "Blue"; Str "Black"];
              Naive.selected := Str "Blue" |}
  ∧ (∀ key, key ≠ "color" →
       Naive.select
         (Naive.select (Naive.initialDimensions product_config) "category" (Str "Shirt"))
         "color" (Str "Blue") !! key
       = Naive.select (Naive.initialDimensions product_config) "category" (Str "Shirt")
           !! key).
Proof.
  assert (Naive.reachable product_config
            (Naive.select (Naive.initialDimensions product_config) "category" (Str "Shirt")))
    as Hreach by (apply Naive.reachable_select, Naive.reachable_init).
  split; [exact Hreach|]. split; [reflexivity|].
  exact (select_changes_one_selection product_config _ "color" _ (Str "Blue")
           Hreach eq_refl).
Defined.

(** ** createMultiFilterStore: [updateProperty] on the catalogue *)

(** C3: Shirt is selected, then Blue.  No shirt is blue, yet
    [updateProperty] leaves category at Shirt: inside the [update] callback
    [getAvailableOptions] still reads the state from before the update, in
    which Shirt was available.  The store then holds a pair of selections
    that no item matches, and Shirt is not among category's own available
    options. *)
Theorem updateProperty_keeps_conflicting_selection :
  Reconciling.updateProperty products product_properties
    (Reconciling.create product_properties) "category" (Str "Shirt") = Some shirt_store
  ∧ Reconciling.updateProperty products product_properties shirt_store
      "color" (Str "Blue") = Some shirt_blue_store
  ∧ Reconciling.getAvailableOptions products product_properties
      (Reconciling.currentState shirt_store) "category" = Some [Str "Shirt"; Str "Pants"]
  ∧ Reconciling.currentState shirt_blue_store !! "category" = Some (Str "Shirt")
  ∧ Reconciling.currentState shirt_blue_store !! "color" = Some (Str "Blue")
  ∧ Reconciling.getAvailableOptions products product_properties
      (Reconciling.currentState shirt_blue_store) "category" = Some [Str "Pants"]
  ∧ Reconciling.getFilteredItems products (Reconciling.currentState shirt_blue_store) = [].
Proof. split_and!; by vm_compute. Qed.

(** ** Selecting a name the store does not have *)


Section unknown_dimension.

Variable items : list Item.
Variable properties : gmap string Reconciling.FilterProperty.

Implicit Types (dims : Naive.Dimensions) (st : Reconciling.Store) (item : Item).



End unknown_dimension.


(** ** A selection and its own dimension's available options *)

(** C5, as stated, fails on the catalogue.  In createFilterStore, Blue then
    Shirt are selected: category's available options are then only Pants.
    In createMultiFilterStore, Jacket is selected: no item is a jacket, and
    [updateProperty] never re-examines the dimension it has just set. *)
Lemma own_selection_can_be_unavailable :
  (let dims := Naive.select (Naive.select (Naive.initialDimensions product_config)
                               "color" (Str "Blue")) "category" (Str "Shirt") in
   Naive.selected <$> dims !! "category" = Some (Str "Shirt")
   ∧ Naive.getAvailableOptions products product_config dims "category"
     = Some [Str "Pants"])
  ∧ ¬ own_selection_available products product_config
  ∧ Reconciling.updateProperty products product_properties
      (Reconciling.create product_properties) "category" (Str "Jacket")
    = Some jacket_store
  ∧ Reconciling.currentState jacket_store !! "category" = Some (Str "Jacket")
  ∧ Reconciling.getAvailableOptions products product_properties
      (Reconciling.currentState jacket_store) "category"
    = Some [Str "Shirt"; Str "Pants"]
  ∧ ¬ own_property_available products product_properties.
Proof.
  cbv zeta. split_and!; try evaluate_equation.
  - intros Hown.
    destruct (Hown
      (Naive.select (Naive.select (Naive.initialDimensions product_config)
                       "color" (Str "Blue")) "category" (Str "Shirt"))
      "category"
      {| Naive.options := Some [Str "Shirt"; Str "Pants"; Str "Jacket"];
         Naive.selected := Str "Shirt" |})
      as (available & Havailable & Hin).
    + do 2 apply Naive.reachable_select. apply Naive.reachable_init.
    + reflexivity.
    + discriminate.
    + vm_compute in Havailable. injection Havailable as <-.
      apply list_elem_of_singleton in Hin. discriminate.
  - intros Hown.
    destruct (Hown jacket_store "category" (Str "Jacket"))
      as (available & Havailable & Hin).
    + apply (Reconciling.reachable_updateProperty products product_properties
               (Reconciling.create product_properties) "category" (Str "Jacket"));
        [apply Reconciling.reachable_create|reflexivity].
    + reflexivity.
    + discriminate.
    + vm_compute in Havailable. injection Havailable as <-.
      revert Hin. by_evaluation.
Qed.

Section own_selection.

Variable items : list Item.
Variable config : gmap string (list PropertyValue).
Variable properties : gmap string Reconciling.FilterProperty.

Implicit Types (dims : Naive.Dimensions) (cur : Reconciling.FilterState) (item : Item).

(** C5, amended: whenever the state filters at least one item in, a
    selection other than 'Any' that is one of its dimension's configured
    options is among that dimension's available options, in both stores. *)
Theorem matched_selection_is_available dims cur dimension dim opts value property :
  dims !! dimension = Some dim →
  Naive.selected dim ≠ ANY_OPTION →
  config !! dimension = Some opts →
  Naive.selected dim ∈ opts →
  Naive.filteredItems items dims ≠ [] →
  cur !! dimension = Some value →
  value ≠ ANY_OPTION →
  properties !! dimension = Some property →
  value ∈ Reconciling.options property →
  Reconciling.getFilteredItems items cur ≠ [] →
  (∃ available,
     Naive.getAvailableOptions items config dims dimension = Some available
     ∧ Naive.selected dim ∈ available)
  ∧ (∃ available,
       Reconciling.getAvailableOptions items properties cur dimension = Some available
       ∧ value ∈ available).
Proof.
  intros Hdim Hsel Hcfg Hopts Hitems Hcur Hvalue Hprop Hoptions Hfiltered. split.
  - rewrite naive_getAvailableOptions_reachable, Hcfg. eexists. split; [done|].
    apply list_elem_of_filter. split; [|done].
    rewrite filteredItems_matches in Hitems.
    apply filter_nonempty_elem in Hitems as (item & Hin & Hm).
    exists item. split_and!; [done| |].
    + destruct (Hm dimension dim Hdim) as [?|[Hfield _]]; done.
    + intros key dim' Hk _. by apply Hm.
  - rewrite getAvailableOptions_reachable, Hprop. eexists. split; [done|].
    apply list_elem_of_filter. split; [|done].
    rewrite getFilteredItems_matches in Hfiltered.
    apply filter_nonempty_elem in Hfiltered as (item & Hin & Hm).
    exists item. split_and!; [done| |].
    + destruct (Hm dimension value Hcur) as [?|[Hfield _]]; done.
    + intros key value' Hk _. by apply Hm.
Qed.

End own_selection.

(** The amended C5 on the catalogue, with Shirt selected. *)
Lemma matched_selection_is_available_witness :
  Naive.filteredItems products
    (Naive.select (Naive.initialDimensions product_config) "category" (Str "Shirt")) ≠ []
  ∧ Reconciling.getFilteredItems products
      (<["category" := Str "Shirt"]> (Reconciling.initialState product_properties)) ≠ []
  ∧ (∃ available,
       Naive.getAvailableOptions products product_config
         (Naive.select (Naive.initialDimensions product_config) "category" (Str "Shirt"))
         "category" = Some available
       ∧ Str "Shirt" ∈ available)
  ∧ (∃ available,
       Reconciling.getAvailableOptions products product_properties
         (<["category" := Str "Shirt"]> (Reconciling.initialState product_properties))
         "category" = Some available
       ∧ Str "Shirt" ∈ available).
Proof.
  assert (Naive.filteredItems products
            (Naive.select (Naive.initialDimensions product_config) "category" (Str "Shirt"))
          ≠ []) as Hitems by (vm_compute; discriminate).
  assert (Reconciling.getFilteredItems products
            (<["category" := Str "Shirt"]> (Reconciling.initialState product_properties))
          ≠ []) as Hfiltered by (vm_compute; discriminate).
  split; [exact Hitems|]. split; [exact Hfiltered|].
  apply (matched_selection_is_available products product_config product_properties
           (Naive.select (Naive.initialDimensions product_config) "category" (Str "Shirt"))
           (<["category" := Str "Shirt"]> (Reconciling.initialState product_properties))
           "category"
           {| Naive.options := Some [Str "Shirt"; Str "Pants"; Str "Jacket"];
              Naive.selected := Str "Shirt" |}
           [Str "Shirt"; Str "Pants"; Str "Jacket"]
           (Str "Shirt")
           {| Reconciling.name := "Category";
              Reconciling.options := [Str "Shirt"; Str "Pants"; Str "Jacket"] |}).
  - reflexivity.
  - discriminate.
  - reflexivity.
  - by_evaluation.
  - exact Hitems.
  - reflexivity.
  - discriminate.
  - reflexivity.
  - by_evaluation.
  - exact Hfiltered.
Defined.

(** ** Order and repetition in the available options *)


Section option_order.

Variable items : list Item.
Variable config : gmap string (list PropertyValue).
Variable properties : gmap string Reconciling.FilterProperty.

Implicit Types (dims : Naive.Dimensions) (cur : Reconciling.FilterState).


End option_order.


(** * Further properties of the stores *)

(** ** Construction *)

(** X1: a freshly built state has exactly the configured names as keys;
    createFilterStore gives each its configured option list and the
    selection 'Any', createMultiFilterStore gives each the selection 'Any'. *)
Theorem initial_state_is_configured_any config properties key :
  Naive.initialDimensions config !! key
  = (λ opts, {| Naive.options := Some opts; Naive.selected := ANY_OPTION |})
      <$> config !! key
  ∧ Reconciling.initialState properties !! key
    = (λ _, ANY_OPTION) <$> properties !! key.
Proof.
  split; [apply initialDimensions_lookup|].
  rewrite initialState_lookup.
  destruct (properties !! key) as [property|]; cbn.
  - by rewrite decide_True.
  - rewrite decide_False; [done|]. by intros [? ?].
Qed.

(** ** createFilterStore: the state under [select] and [reset] *)

Section naive_state.

Variable config : gmap string (list PropertyValue).

Implicit Types (dims : Naive.Dimensions).

(** X2: in every state the store can reach, an entry's [options] field is
    what the configuration holds under that name (nothing for a name the
    configuration lacks), and a name without an entry is not configured. *)
Theorem reachable_options_mirror_config dims key :
  Naive.reachable config dims →
  (∀ dim, dims !! key = Some dim → Naive.options dim = config !! key)
  ∧ (dims !! key = None → config !! key = None).
Proof.
  intros Hreach. revert key.
  induction Hreach as [|dims d value Hreach IH|dims Hreach IH]; intros key.
  - rewrite initialDimensions_lookup.
    destruct (config !! key); cbn; split; [by intros dim [= <-]|done..].
  - rewrite select_lookup. case_decide as Hk; [|apply IH].
    subst key. split; [|done]. intros dim [= <-]. cbn.
    destruct (IH d) as [Hsome Hnone].
    destruct (dims !! d) as [dim0|]; cbn; [by apply Hsome|].
    symmetry. by apply Hnone.
  - unfold Naive.reset. rewrite initialDimensions_lookup.
    destruct (config !! key); cbn; split; [by intros dim [= <-]|done..].
Qed.

(** X3: selections compose as assignments do: a second [select] on the same
    dimension overrides the first, and [select]s on different dimensions can
    be swapped, whether or not the state has the names; selecting the value
    that an entry of the state already holds changes nothing. *)
Theorem select_composes dims d d' v v' :
  Naive.select (Naive.select dims d v) d v' = Naive.select dims d v'
  ∧ (d ≠ d' →
     Naive.select (Naive.select dims d v) d' v'
     = Naive.select (Naive.select dims d' v') d v)
  ∧ (∀ dim, dims !! d = Some dim → Naive.select dims d (Naive.selected dim) = dims).
Proof.
  unfold Naive.select. split_and!.
  - by rewrite lookup_insert_eq, insert_insert_eq.
  - intros Hne. rewrite !lookup_insert_ne by done. by apply insert_insert_ne.
  - intros dim Hd. rewrite Hd. cbn. apply insert_id. rewrite Hd. by destruct dim.
Qed.

End naive_state.

(** X2 on the catalogue, after "size" has been selected. *)
Lemma reachable_options_mirror_config_witness :
  Naive.reachable product_config
    (Naive.select (Naive.initialDimensions product_config) "size" (Str "M"))
  ∧ (∀ dim,
       Naive.select (Naive.initialDimensions product_config) "size" (Str "M") !! "size"
       = Some dim →
       Naive.options dim = product_config !! "size")
  ∧ (Naive.select (Naive.initialDimensions product_config) "size" (Str "M") !! "size"
     = None → product_config !! "size" = None).
Proof.
  assert (Naive.reachable product_config
            (Naive.select (Naive.initialDimensions product_config) "size" (Str "M")))
    as Hreach by (apply Naive.reachable_select, Naive.reachable_init).
  split; [exact Hreach|].
  exact (reachable_options_mirror_config product_config _ "size" Hreach).
Defined.

(** X3 on the catalogue: on the configured "category", and on "size",
    which the state does not have. *)
Lemma select_composes_witness :
  Naive.select
    (Naive.select (Naive.initialDimensions product_config) "size" (Str "M"))
    "size" (Str "L")
  = Naive.select (Naive.initialDimensions product_config) "size" (Str "L")
  ∧ Naive.select
      (Naive.select (Naive.initialDimensions product_config) "size" (Str "M"))
      "category" (Str "Shirt")
    = Naive.select
        (Naive.select (Naive.initialDimensions product_config) "category" (Str "Shirt"))
        "size" (Str "M")
  ∧ Naive.select (Naive.initialDimensions product_config) "category" ANY_OPTION
    = Naive.initialDimensions product_config.
Proof.
  destruct (select_composes (Naive.initialDimensions product_config) "size" "category"
              (Str "M") (Str "L")) as (Hover & _ & _).
  destruct (select_composes (Naive.initialDimensions product_config) "size" "category"
              (Str "M") (Str "Shirt")) as (_ & Hswap & _).
  destruct (select_composes (Naive.initialDimensions product_config) "category" "size"
              ANY_OPTION ANY_OPTION) as (_ & _ & Hsame).
  split; [exact Hover|]. split; [apply Hswap; discriminate|].
  exact (Hsame {| Naive.options := Some [Str "Shirt"; Str "Pants"; Str "Jacket"];
                  Naive.selected := ANY_OPTION |} eq_refl).
Defined.

(** ** createMultiFilterStore: the state under [updateProperty] *)

Section reconciling_state.

Variable items : list Item.
Variable properties : gmap string Reconciling.FilterProperty.

Implicit Types (cur : Reconciling.FilterState) (st : Reconciling.Store) (item : Item).

(** Dropping constraints keeps an option reachable. *)
Lemma option_reachable_relax cur cur' propertyName option :
  (∀ key value, cur' !! key = Some value → key ≠ propertyName →
     value = ANY_OPTION ∨ cur !! key = Some value) →
  Reconciling.option_reachable items cur propertyName option →
  Reconciling.option_reachable items cur' propertyName option.
Proof.
  intros Hrelax (item & Hin & Heq & Hm). exists item. split_and!; [done..|].
  intros key value Hk Hne.
  destruct (Hrelax key value Hk Hne) as [->|Hold]; [by left|].
  by apply (Hm key).
Qed.

Lemma getAvailableOptions_relax cur cur' propertyName available option :
  (∀ key value, cur' !! key = Some value → key ≠ propertyName →
     value = ANY_OPTION ∨ cur !! key = Some value) →
  Reconciling.getAvailableOptions items properties cur propertyName = Some available →
  option ∈ available →
  ∃ available',
    Reconciling.getAvailableOptions items properties cur' propertyName = Some available'
    ∧ option ∈ available'.
Proof.
  intros Hrelax. rewrite !getAvailableOptions_reachable.
  destruct (properties !! propertyName) as [property|].
  - intros [= <-] [Hr Hin]%list_elem_of_filter. eexists. split; [done|].
    apply list_elem_of_filter. split; [|done].
    by apply (option_reachable_relax cur).
  - destruct (inherited propertyName); [done|].
    intros [= <-] Hin. by apply elem_of_nil in Hin.
Qed.

(** [updateProperty] returns when no other key of the state stands for an
    inherited member. *)
Lemma updateProperty_returns st propertyName value :
  (∀ key, is_Some (Reconciling.filterStore st !! key) → key ≠ propertyName →
          is_Some (properties !! key) ∨ inherited key = false) →
  ∃ st', Reconciling.updateProperty items properties st propertyName value = Some st'.
Proof.
  intros Hsafe.
  destruct (Reconciling.updateProperty items properties st propertyName value)
    as [st'|] eqn:Hupdate; [by exists st'|].
  apply updateProperty_raises in Hupdate as (key & Hk & Hne & Hnone & Hinh).
  destruct (Hsafe key Hk Hne) as [[? Hsome]|Hfree]; congruence.
Qed.

(** X4: what [updateProperty] does.  It raises, and stores nothing, exactly
    when the state has a key, other than the updated name, that is not
    configured and is the name of a member inherited from
    [Object.prototype].  When it returns, the updated name holds the new
    value; every other key of the previous state keeps its selection, unless
    that selection was not 'Any' and was missing from the options
    [getAvailableOptions] gives for that key in the state before the update,
    and then it becomes 'Any'; no other key appears or disappears, and
    [currentState] ends equal to the store's value. *)
Theorem updateProperty_effect st propertyName value :
  (Reconciling.updateProperty items properties st propertyName value = None
   ↔ ∃ key, is_Some (Reconciling.filterStore st !! key) ∧ key ≠ propertyName
            ∧ properties !! key = None ∧ inherited key = true)
  ∧ (∀ st',
       Reconciling.updateProperty items properties st propertyName value = Some st' →
       Reconciling.filterStore st' = Reconciling.currentState st'
       ∧ Reconciling.currentState st' !! propertyName = Some value
       ∧ (∀ key x,
            key ≠ propertyName → Reconciling.filterStore st !! key = Some x →
            ∃ available,
              Reconciling.getAvailableOptions items properties
                (Reconciling.currentState st) key = Some available
              ∧ Reconciling.currentState st' !! key
                = Some (if decide (x ≠ ANY_OPTION ∧ x ∉ available)
                        then ANY_OPTION else x))
       ∧ (∀ key,
            key ≠ propertyName → Reconciling.filterStore st !! key = None →
            Reconciling.currentState st' !! key = None)).
Proof.
  split; [apply updateProperty_raises|].
  intros st' Hupdate. split_and!.
  - by eapply updateProperty_synced.
  - by rewrite (updateProperty_lookup _ _ _ _ _ _ _ Hupdate), decide_True.
  - intros key x Hne Hk.
    destruct (updateProperty_available _ _ _ _ _ _ key Hupdate) as [available Hav];
      [by eexists|done|].
    exists available. split; [done|].
    rewrite (updateProperty_lookup _ _ _ _ _ _ _ Hupdate), decide_False, Hk, Hav by done.
    cbn. by case_decide.
  - intros key Hne Hk.
    by rewrite (updateProperty_lookup _ _ _ _ _ _ _ Hupdate), decide_False, Hk.
Qed.

(** On the catalogue: a selection under the name "constructor" is recorded,
    and from then on an update of any other name raises. *)
Example updateProperty_raises_after_constructor :
  Reconciling.updateProperty products product_properties
    (Reconciling.create product_properties) "constructor" (Str "x")
  = Some constructor_store
  ∧ Reconciling.getAvailableOptions products product_properties
      (Reconciling.currentState constructor_store) "constructor" = None
  ∧ Reconciling.updateProperty products product_properties constructor_store
      "color" (Str "Red") = None
  ∧ Reconciling.updateProperty products product_properties constructor_store
      "constructor" (Str "y")
    = Some (Reconciling.writable_set
              {[ "category" := ANY_OPTION; "color" := ANY_OPTION;
                 "constructor" := Str "y" ]}).
Proof. split_and!; by vm_compute. Qed.

(** X5: when [getAvailableOptions] returns for every other key of the state
    and that key's selection is 'Any' or among the returned options,
    [updateProperty] returns and resets nothing: the new state is the old one
    with the new value written in, whether or not the new value is
    compatible with the other selections. *)
Theorem updateProperty_without_reset st propertyName value :
  Reconciling.filterStore st = Reconciling.currentState st →
  (∀ key x, Reconciling.currentState st !! key = Some x → key ≠ propertyName →
     ∃ available,
       Reconciling.getAvailableOptions items properties
         (Reconciling.currentState st) key = Some available
       ∧ (x = ANY_OPTION ∨ x ∈ available)) →
  Reconciling.updateProperty items properties st propertyName value
  = Some (Reconciling.writable_set
            (<[propertyName := value]> (Reconciling.currentState st))).
Proof.
  intros Hsync Havailable.
  destruct (updateProperty_returns st propertyName value) as [st' Hupdate].
  { intros key [x Hk] Hne. rewrite Hsync in Hk.
    destruct (Havailable key x Hk Hne) as (available & Hav & _).
    destruct (properties !! key) eqn:Hp; [left; by eexists|right].
    destruct (inherited key) eqn:Hinh; [|done].
    assert (Reconciling.getAvailableOptions items properties
              (Reconciling.currentState st) key = None) as Hnone
      by (by apply getAvailableOptions_raises).
    congruence. }
  rewrite Hupdate, (updateProperty_writable_set _ _ _ _ _ _ Hupdate).
  do 2 f_equal. apply map_eq. intros key.
  rewrite (updateProperty_lookup _ _ _ _ _ _ _ Hupdate), lookup_insert, Hsync.
  destruct (decide (key = propertyName)) as [->|Hne]; [by rewrite decide_True|].
  rewrite decide_False by done.
  destruct (Reconciling.currentState st !! key) as [x|] eqn:Hk; [|done].
  destruct (Havailable key x Hk Hne) as (available & -> & Hx).
  cbn. case_decide as Hbad; [|done].
  destruct Hbad as [Hany Hnotin]. by destruct Hx.
Qed.

(** X6: the reset comes one update late.  When [updateProperty] is called
    with the value the property already holds, on a state none of whose
    other keys stands for an inherited member, it returns, and every other
    key of the resulting state holds 'Any' or a value that is among the
    options available for it in that resulting state. *)
Theorem repeated_update_reconciles st propertyName value :
  Reconciling.filterStore st = Reconciling.currentState st →
  Reconciling.currentState st !! propertyName = Some value →
  (∀ key, is_Some (Reconciling.filterStore st !! key) → key ≠ propertyName →
          is_Some (properties !! key) ∨ inherited key = false) →
  ∃ st',
    Reconciling.updateProperty items properties st propertyName value = Some st'
    ∧ ∀ key x,
        key ≠ propertyName →
        Reconciling.currentState st' !! key = Some x →
        x ≠ ANY_OPTION →
        ∃ available,
          Reconciling.getAvailableOptions items properties
            (Reconciling.currentState st') key = Some available
          ∧ x ∈ available.
Proof.
  intros Hsync Hheld Hsafe.
  destruct (updateProperty_returns st propertyName value Hsafe) as [st' Hupdate].
  exists st'. split; [done|]. intros key x Hne Hk Hany.
  assert (∃ available,
            Reconciling.getAvailableOptions items properties
              (Reconciling.currentState st) key = Some available
            ∧ x ∈ available) as (available & Hav & Hin).
  { rewrite (updateProperty_lookup _ _ _ _ _ _ _ Hupdate), decide_False in Hk by done.
    destruct (Reconciling.filterStore st !! key) as [y|] eqn:Hy; [|done].
    destruct (updateProperty_available _ _ _ _ _ _ key Hupdate) as [available Hav];
      [by eexists|done|].
    exists available. split; [done|]. rewrite Hav in Hk. cbn in Hk.
    case_decide as Hbad; injection Hk as <-; [done|].
    destruct (decide (y ∈ available)); [done|]. destruct Hbad. by split. }
  apply (getAvailableOptions_relax (Reconciling.currentState st) _ _ available); [|done..].
  intros key' y. rewrite (updateProperty_lookup _ _ _ _ _ _ _ Hupdate), Hsync.
  destruct (decide (key' = propertyName)) as [->|Hne'].
  { intros [= <-] _. by right. }
  destruct (Reconciling.currentState st !! key') as [z|]; [|done].
  case_decide; intros [= <-] _; [by left|by right].
Qed.

(** X7: in every state the store can reach, [currentState] equals the
    store's value and every configured property name has an entry. *)
Theorem reachable_store_invariant st propertyName :
  Reconciling.reachable items properties st →
  Reconciling.filterStore st = Reconciling.currentState st
  ∧ (is_Some (properties !! propertyName) →
     is_Some (Reconciling.currentState st !! propertyName)).
Proof.
  intros Hreach. split; [by apply (reachable_synced items properties)|].
  intros Hconfigured.
  assert (is_Some (Reconciling.initialState properties !! propertyName)) as Hinit.
  { rewrite initialState_lookup, decide_True by done. by eexists. }
  induction Hreach as [|st p value st' Hreach IH Hupdate|st Hreach IH]; [done| |done].
  rewrite (updateProperty_lookup _ _ _ _ _ _ _ Hupdate). case_decide; [by eexists|].
  rewrite (reachable_synced items properties st Hreach).
  destruct IH as [x ->]. case_decide; by eexists.
Qed.

(** X8: on a state none of whose other keys stands for an inherited member,
    updating a property to a value that [getAvailableOptions] lists for it
    (other than NaN) returns and leaves at least one filtered item. *)
Theorem available_update_has_results st propertyName available value :
  Reconciling.filterStore st = Reconciling.currentState st →
  Reconciling.getAvailableOptions items properties
    (Reconciling.currentState st) propertyName = Some available →
  value ∈ available →
  value ≠ NaN →
  (∀ key, is_Some (Reconciling.filterStore st !! key) → key ≠ propertyName →
          is_Some (properties !! key) ∨ inherited key = false) →
  ∃ st',
    Reconciling.updateProperty items properties st propertyName value = Some st'
    ∧ Reconciling.getFilteredItems items (Reconciling.currentState st') ≠ [].
Proof.
  intros Hsync Havailable Hin Hnan Hsafe.
  destruct (updateProperty_returns st propertyName value Hsafe) as [st' Hupdate].
  exists st'. split; [done|].
  rewrite getAvailableOptions_reachable in Havailable.
  destruct (properties !! propertyName) as [property|];
    [|destruct (inherited propertyName); [done|];
      injection Havailable as <-; by apply elem_of_nil in Hin].
  injection Havailable as <-.
  apply list_elem_of_filter in Hin as [(item & Hitem & Heq & Hm) _].
  assert (item ∈ Reconciling.getFilteredItems items (Reconciling.currentState st'))
    as Hres.
  { rewrite getFilteredItems_matches. apply list_elem_of_filter. split; [|done].
    intros key x. rewrite (updateProperty_lookup _ _ _ _ _ _ _ Hupdate), Hsync.
    destruct (decide (key = propertyName)) as [->|Hne].
    { intros [= <-]. by right. }
    destruct (Reconciling.currentState st !! key) as [y|] eqn:Hk; [|done].
    case_decide; intros [= <-]; [by left|]. by apply (Hm key). }
  intros Hnil. rewrite Hnil in Hres. by apply elem_of_nil in Hres.
Qed.

End reconciling_state.

(** No key of the stores over the catalogue stands for an inherited
    member. *)
Lemma catalogue_keys_configured st propertyName :
  st = shirt_store ∨ st = shirt_blue_store →
  ∀ key, is_Some (Reconciling.filterStore st !! key) → key ≠ propertyName →
         is_Some (product_properties !! key) ∨ inherited key = false.
Proof.
  intros Hst key [x Hk] _. revert key x Hk.
  destruct Hst as [->| ->].
  - change (map_Forall (λ key _, is_Some (product_properties !! key)
                                 ∨ inherited key = false)
              (Reconciling.filterStore shirt_store)).
    by_evaluation.
  - change (map_Forall (λ key _, is_Some (product_properties !! key)
                                 ∨ inherited key = false)
              (Reconciling.filterStore shirt_blue_store)).
    by_evaluation.
Qed.

(** X5 on the catalogue: Shirt is selected and available, then Blue is
    chosen; the state becomes Shirt and Blue. *)
Lemma updateProperty_without_reset_witness :
  Reconciling.filterStore shirt_store = Reconciling.currentState shirt_store
  ∧ (∀ key x, Reconciling.currentState shirt_store !! key = Some x → key ≠ "color" →
       ∃ available,
         Reconciling.getAvailableOptions products product_properties
           (Reconciling.currentState shirt_store) key = Some available
         ∧ (x = ANY_OPTION ∨ x ∈ available))
  ∧ Reconciling.updateProperty products product_properties shirt_store
      "color" (Str "Blue")
    = Some (Reconciling.writable_set
              (<["color" := Str "Blue"]> (Reconciling.currentState shirt_store))).
Proof.
  assert (∀ key x, Reconciling.currentState shirt_store !! key = Some x →
            key ≠ "color" →
            ∃ available,
              Reconciling.getAvailableOptions products product_properties
                (Reconciling.currentState shirt_store) key = Some available
              ∧ (x = ANY_OPTION ∨ x ∈ available)) as Havailable.
  { assert (map_Forall (λ key x, key ≠ "color" →
              is_Some (Reconciling.getAvailableOptions products product_properties
                         (Reconciling.currentState shirt_store) key)
              ∧ (x = ANY_OPTION
                 ∨ x ∈ default [] (Reconciling.getAvailableOptions products
                                     product_properties
                                     (Reconciling.currentState shirt_store) key)))
              (Reconciling.currentState shirt_store)) as Hall by by_evaluation.
    intros key x Hk Hne. destruct (Hall key x Hk Hne) as [[available Hav] Hx].
    rewrite Hav in Hx. by exists available. }
  split; [reflexivity|]. split; [exact Havailable|].
  exact (updateProperty_without_reset products product_properties shirt_store
           "color" (Str "Blue") eq_refl Havailable).
Defined.

(** X6 on the catalogue, from the state Shirt and Blue: choosing Blue again
    resets category. *)
Lemma repeated_update_reconciles_witness :
  Reconciling.filterStore shirt_blue_store = Reconciling.currentState shirt_blue_store
  ∧ Reconciling.currentState shirt_blue_store !! "color" = Some (Str "Blue")
  ∧ Reconciling.currentState shirt_blue_store !! "category" = Some (Str "Shirt")
  ∧ Reconciling.updateProperty products product_properties shirt_blue_store
      "color" (Str "Blue")
    = Some (Reconciling.writable_set
              {[ "category" := ANY_OPTION; "color" := Str "Blue" ]})
  ∧ ∃ st',
      Reconciling.updateProperty products product_properties shirt_blue_store
        "color" (Str "Blue") = Some st'
      ∧ ∀ key x,
          key ≠ "color" →
          Reconciling.currentState st' !! key = Some x →
          x ≠ ANY_OPTION →
          ∃ available,
            Reconciling.getAvailableOptions products product_properties
              (Reconciling.currentState st') key = Some available
            ∧ x ∈ available.
Proof.
  split; [reflexivity|]. split; [reflexivity|].
  split; [reflexivity|]. split; [by vm_compute|].
  exact (repeated_update_reconciles products product_properties shirt_blue_store
           "color" (Str "Blue") eq_refl eq_refl
           (catalogue_keys_configured shirt_blue_store "color" (or_intror eq_refl))).
Defined.

(** X7 on the catalogue, after Shirt then Blue. *)
Lemma reachable_store_invariant_witness :
  Reconciling.reachable products product_properties shirt_blue_store
  ∧ Reconciling.filterStore shirt_blue_store = Reconciling.currentState shirt_blue_store
  ∧ (is_Some (product_properties !! "category") →
     is_Some (Reconciling.currentState shirt_blue_store !! "category")).
Proof.
  assert (Reconciling.reachable products product_properties shirt_blue_store) as Hreach.
  { apply (Reconciling.reachable_updateProperty products product_properties
             shirt_store "color" (Str "Blue")); [|by vm_compute].
    apply (Reconciling.reachable_updateProperty products product_properties
             (Reconciling.create product_properties) "category" (Str "Shirt"));
      [apply Reconciling.reachable_create|by vm_compute]. }
  split; [exact Hreach|].
  exact (reachable_store_invariant products product_properties shirt_blue_store
           "category" Hreach).
Defined.

(** X8 on the catalogue: with Shirt selected, Red is available. *)
Lemma available_update_has_results_witness :
  Reconciling.filterStore shirt_store = Reconciling.currentState shirt_store
  ∧ Reconciling.getAvailableOptions products product_properties
      (Reconciling.currentState shirt_store) "color" = Some [Str "Red"; Str "Black"]
  ∧ Str "Red" ∈ [Str "Red"; Str "Black"]
  ∧ Str "Red" ≠ NaN
  ∧ ∃ st',
      Reconciling.updateProperty products product_properties shirt_store
        "color" (Str "Red") = Some st'
      ∧ Reconciling.getFilteredItems products (Reconciling.currentState st') ≠ [].
Proof.
  assert (Str "Red" ∈ [Str "Red"; Str "Black"]) as Hin by by_evaluation.
  split; [reflexivity|]. split; [by vm_compute|]. split; [exact Hin|].
  split; [discriminate|].
  exact (available_update_has_results products product_properties shirt_store
           "color" [Str "Red"; Str "Black"] (Str "Red")
           eq_refl ltac:(by vm_compute) Hin ltac:(discriminate)
           (catalogue_keys_configured shirt_store "color" (or_introl eq_refl))).
Defined.

(** ** Filtered items and available options together *)

Lemma filter_none {A} (P : A → Prop) `{!∀ x, Decision (P x)} (l : list A) :
  (∀ x, x ∈ l → ¬ P x) → filter P l = [].
Proof.
  induction l as [|x l IH]; intros HP; [done|].
  rewrite filter_cons_False by (apply HP; left).
  apply IH. intros y Hy. apply HP. by right.
Qed.

Lemma filter_ext_elem {A} (P Q : A → Prop)
    `{!∀ x, Decision (P x)} `{!∀ x, Decision (Q x)} (l : list A) :
  (∀ x, x ∈ l → P x ↔ Q x) → filter P l = filter Q l.
Proof.
  induction l as [|x l IH]; intros HPQ; [done|].
  rewrite !filter_cons.
  rewrite IH by (intros y Hy; apply HPQ; by right).
  destruct (decide (P x)) as [HP|HP].
  - rewrite decide_True; [done|]. apply HPQ; [left|done].
  - rewrite decide_False; [done|]. intros HQ. apply HP, HPQ; [left|done].
Qed.

Section views_together.

Variable items : list Item.
Variable config : gmap string (list PropertyValue).
Variable properties : gmap string Reconciling.FilterProperty.

Implicit Types (dims : Naive.Dimensions) (cur : Reconciling.FilterState).
Implicit Types (st : Reconciling.Store) (item : Item).

Lemma naive_matches_cleared dims dimension item :
  Naive.matches (Naive.select dims dimension ANY_OPTION) item
  ↔ Naive.matches_others dims dimension item.
Proof.
  unfold Naive.matches, Naive.matches_others. split.
  - intros H key dim Hk Hne. apply (H key dim).
    by rewrite select_lookup, decide_False.
  - intros H key dim. rewrite select_lookup. case_decide as Hk.
    + intros [= <-]. by left.
    + intros Hkey. by apply H.
Qed.

Lemma matches_cleared cur propertyName item :
  Reconciling.matches (<[propertyName := ANY_OPTION]> cur) item
  ↔ Reconciling.matches_others cur propertyName item.
Proof.
  unfold Reconciling.matches, Reconciling.matches_others. split.
  - intros H key x Hk Hne. apply (H key x). by rewrite lookup_insert_ne.
  - intros H key x. rewrite lookup_insert. case_decide as Hk.
    + intros [= <-]. by left.
    + intros Hkey. apply H; [done|]. by intros ->.
Qed.

(** X9: in createFilterStore, selecting a value that [getAvailableOptions]
    lists for the dimension (other than NaN) leaves at least one filtered
    item. *)
Theorem available_choice_has_results dims dimension available value :
  Naive.getAvailableOptions items config dims dimension = Some available →
  value ∈ available →
  value ≠ NaN →
  Naive.filteredItems items (Naive.select dims dimension value) ≠ [].
Proof.
  rewrite naive_getAvailableOptions_reachable. intros Havailable Hin Hnan.
  destruct (config !! dimension) as [opts|]; [|done].
  injection Havailable as <-.
  apply list_elem_of_filter in Hin as [(item & Hitem & Heq & Hm) _].
  assert (item ∈ Naive.filteredItems items (Naive.select dims dimension value)) as Hres.
  { rewrite filteredItems_matches. apply list_elem_of_filter. split; [|done].
    intros key dim. rewrite select_lookup. case_decide as Hk.
    - subst key. intros [= <-]. by right.
    - intros Hkey. by apply (Hm key). }
  intros Hnil. rewrite Hnil in Hres. by apply elem_of_nil in Hres.
Qed.

(** X10: the options available for a dimension are the configured options
    that occur, in that dimension's field, among the items filtered with that
    dimension set to 'Any'; in both stores (for a name that is not
    configured, createFilterStore raises; createMultiFilterStore raises when
    the name is an inherited one, and returns the empty list otherwise). *)
Theorem available_options_from_cleared_results dims cur dimension :
  Reconciling.getAvailableOptions items properties cur dimension
  = (if bool_decide (properties !! dimension = None) && inherited dimension
     then None
     else Some (Reconciling.options_in_items
                  (Reconciling.getFilteredItems items (<[dimension := ANY_OPTION]> cur))
                  properties dimension))
  ∧ Naive.getAvailableOptions items config dims dimension
    = filter (Reconciling.occurs_in_items
                (Naive.filteredItems items (Naive.select dims dimension ANY_OPTION))
                dimension)
        <$> config !! dimension.
Proof.
  split.
  - rewrite getAvailableOptions_reachable. unfold Reconciling.options_in_items.
    destruct (properties !! dimension) as [property|].
    + rewrite bool_decide_eq_false_2 by done. cbn [andb]. f_equal.
      apply list_filter_iff. intros option.
      unfold Reconciling.option_reachable, Reconciling.occurs_in_items.
      rewrite getFilteredItems_matches. split.
      * intros (item & Hin & Heq & Hm). exists item. split; [|done].
        apply list_elem_of_filter. split; [|done]. by apply matches_cleared.
      * intros (item & Hin & Heq). apply list_elem_of_filter in Hin as [Hm Hin].
        exists item. split_and!; [done..|]. by apply matches_cleared.
    + rewrite bool_decide_eq_true_2 by done. cbn [andb].
      by destruct (inherited dimension).
  - rewrite naive_getAvailableOptions_reachable.
    destruct (config !! dimension) as [opts|]; [|done].
    cbn [fmap option_fmap option_map]. f_equal.
    apply list_filter_iff. intros option.
    unfold Naive.option_reachable, Reconciling.occurs_in_items.
    rewrite filteredItems_matches. split.
    + intros (item & Hin & Heq & Hm). exists item. split; [|done].
      apply list_elem_of_filter. split; [|done]. by apply naive_matches_cleared.
    + intros (item & Hin & Heq). apply list_elem_of_filter in Hin as [Hm Hin].
      exists item. split_and!; [done..|]. by apply naive_matches_cleared.
Qed.

(** X11: setting any dimension to 'Any' never removes an available option
    of a dimension: the old list is a subsequence of the new one, in both
    stores (and a call that raises still raises). *)
Theorem relaxing_a_dimension_keeps_options dims cur dimension relaxed :
  (∀ available,
     Reconciling.getAvailableOptions items properties cur dimension = Some available →
     ∃ available',
       Reconciling.getAvailableOptions items properties
         (<[relaxed := ANY_OPTION]> cur) dimension = Some available'
       ∧ available `sublist_of` available')
  ∧ (Reconciling.getAvailableOptions items properties cur dimension = None →
     Reconciling.getAvailableOptions items properties
       (<[relaxed := ANY_OPTION]> cur) dimension = None)
  ∧ (∀ available,
       Naive.getAvailableOptions items config dims dimension = Some available →
       ∃ available',
         Naive.getAvailableOptions items config
           (Naive.select dims relaxed ANY_OPTION) dimension = Some available'
         ∧ available `sublist_of` available').
Proof.
  split_and!.
  - intros available. rewrite !getAvailableOptions_reachable.
    destruct (properties !! dimension) as [property|].
    + intros [= <-]. eexists. split; [done|].
      apply filter_weaken_sublist. intros option _.
      apply option_reachable_relax. intros key x. rewrite lookup_insert.
      case_decide; [intros [= <-] _; by left|]. intros Hk _. by right.
    + destruct (inherited dimension); [done|]. intros [= <-]. by eexists.
  - rewrite !getAvailableOptions_raises. tauto.
  - intros available. rewrite !naive_getAvailableOptions_reachable.
    destruct (config !! dimension) as [opts|]; [|done].
    intros [= <-]. eexists. split; [done|].
    apply filter_weaken_sublist. intros option _ (item & Hin & Heq & Hm).
    exists item. split_and!; [done..|].
    intros key dim. rewrite select_lookup. case_decide.
    + intros [= <-] _. by left.
    + intros Hk Hne. by apply (Hm key).
Qed.

(** X12: an available option is always one of the dimension's configured
    options and the value of that field in some item; so with no items at
    all nothing is available, in both stores (a call that raises does so
    with or without items). *)
Theorem available_options_occur_in_items dims cur dimension :
  (∀ available value,
     Reconciling.getAvailableOptions items properties cur dimension = Some available →
     value ∈ available →
     (∃ property, properties !! dimension = Some property
                  ∧ value ∈ Reconciling.options property)
     ∧ Reconciling.occurs_in_items items dimension value)
  ∧ (∀ available value,
       Naive.getAvailableOptions items config dims dimension = Some available →
       value ∈ available →
       (∃ opts, config !! dimension = Some opts ∧ value ∈ opts)
       ∧ Reconciling.occurs_in_items items dimension value)
  ∧ Reconciling.getAvailableOptions [] properties cur dimension
    = (if bool_decide (properties !! dimension = None) && inherited dimension
       then None else Some [])
  ∧ (∀ available,
       Naive.getAvailableOptions [] config dims dimension = Some available →
       available = []).
Proof.
  split_and!.
  - intros available value. rewrite getAvailableOptions_reachable.
    destruct (properties !! dimension) as [property|].
    + intros [= <-] [(item & Hin & Heq & _) Hopt]%list_elem_of_filter.
      split; [by eexists|by exists item].
    + destruct (inherited dimension); [done|].
      intros [= <-] Hin. by apply elem_of_nil in Hin.
  - intros available value. rewrite naive_getAvailableOptions_reachable.
    destruct (config !! dimension) as [opts|]; [|done].
    intros [= <-] [(item & Hin & Heq & _) Hopt]%list_elem_of_filter.
    split; [by eexists|by exists item].
  - rewrite getAvailableOptions_reachable.
    destruct (properties !! dimension) as [property|].
    + rewrite bool_decide_eq_false_2 by done. cbn [andb]. f_equal.
      apply filter_none. intros option _ (item & Hin & _). by apply elem_of_nil in Hin.
    + rewrite bool_decide_eq_true_2 by done. cbn [andb].
      by destruct (inherited dimension).
  - intros available. rewrite naive_getAvailableOptions_reachable.
    destruct (config !! dimension) as [opts|]; [|done].
    intros [= <-].
    apply filter_none. intros option _ (item & Hin & _). by apply elem_of_nil in Hin.
Qed.

(** X13: selecting the number NaN filters every item out, because [===]
    never holds for NaN: in createFilterStore after [select], and in
    createMultiFilterStore in every state that holds NaN for a key, such as
    the state a returning [updateProperty] leaves; yet [getAvailableOptions],
    which compares with [includes], lists a configured NaN as available when
    an item that passes the other dimensions holds NaN in the field. *)
Theorem selecting_nan_filters_everything dims cur st dimension :
  Naive.filteredItems items (Naive.select dims dimension NaN) = []
  ∧ (cur !! dimension = Some NaN → Reconciling.getFilteredItems items cur = [])
  ∧ (∀ st',
       Reconciling.updateProperty items properties st dimension NaN = Some st' →
       Reconciling.getFilteredItems items (Reconciling.currentState st') = [])
  ∧ (∀ opts item,
       config !! dimension = Some opts → NaN ∈ opts →
       item ∈ items → item !! dimension = Some NaN →
       Naive.matches_others dims dimension item →
       ∃ available,
         Naive.getAvailableOptions items config dims dimension = Some available
         ∧ NaN ∈ available).
Proof.
  assert (∀ cur', cur' !! dimension = Some NaN →
                  Reconciling.getFilteredItems items cur' = []) as Hnan.
  { intros cur' Hk. rewrite getFilteredItems_matches.
    apply filter_none. intros item _ Hm.
    by destruct (Hm dimension NaN Hk) as [?|[_ ?]]. }
  split_and!.
  - rewrite filteredItems_matches. apply filter_none. intros item _ Hm.
    destruct (Hm dimension {| Naive.options := dims !! dimension ≫= Naive.options;
                              Naive.selected := NaN |}) as [?|[_ ?]]; [|done..].
    by rewrite select_lookup, decide_True.
  - apply Hnan.
  - intros st' Hupdate. apply Hnan.
    by rewrite (updateProperty_lookup _ _ _ _ _ _ _ Hupdate), decide_True.
  - intros opts item Hcfg Hopt Hin Heq Hm.
    rewrite naive_getAvailableOptions_reachable, Hcfg. eexists. split; [done|].
    apply list_elem_of_filter. split; [|done]. by exists item.
Qed.

(** X14: [getExistingValues] lists each value found in the field exactly
    once, [undefined] included when some item lacks the field. *)
Theorem getExistingValues_distinct propertyName :
  NoDup (Reconciling.getExistingValues items propertyName)
  ∧ (∀ x : JsValue,
       x ∈ Reconciling.getExistingValues items propertyName
       ↔ ∃ item, item ∈ items ∧ item !! propertyName = x).
Proof.
  unfold Reconciling.getExistingValues. split; [apply NoDup_new_Set|].
  intros x. rewrite elem_of_new_Set.
  change (map ?f ?l) with (f <$> l). rewrite list_elem_of_fmap. naive_solver.
Qed.

(** X15: the two stores agree.  With the same option lists they start from
    the same selections, [select] writes a selection as a plain assignment,
    and from equal selections they compute the same filtered items and, for
    a configured dimension, the same available options (createFilterStore
    raising for every name that is not configured). *)
Theorem stores_agree_on_views dims dimension value :
  Naive.selected <$> Naive.initialDimensions (Reconciling.options <$> properties)
  = Reconciling.initialState properties
  ∧ Naive.selected <$> Naive.select dims dimension value
    = <[dimension := value]> (Naive.selected <$> dims)
  ∧ Naive.filteredItems items dims
    = Reconciling.getFilteredItems items (Naive.selected <$> dims)
  ∧ Naive.getAvailableOptions items (Reconciling.options <$> properties) dims dimension
    = properties !! dimension
      ≫= λ _, Reconciling.getAvailableOptions items properties
                (Naive.selected <$> dims) dimension.
Proof.
  split_and!.
  - apply map_eq. intros key.
    rewrite lookup_fmap, initialDimensions_lookup, lookup_fmap, initialState_lookup.
    destruct (properties !! key) as [property|]; cbn.
    + by rewrite decide_True.
    + rewrite decide_False; [done|]. by intros [? ?].
  - unfold Naive.select. by rewrite fmap_insert.
  - rewrite filteredItems_matches, getFilteredItems_matches.
    apply list_filter_iff. intros item.
    unfold Naive.matches, Reconciling.matches. split.
    + intros H key x. rewrite lookup_fmap.
      destruct (dims !! key) as [dim|] eqn:Hk; [|done].
      intros [= <-]. by apply (H key).
    + intros H key dim Hk. apply (H key). by rewrite lookup_fmap, Hk.
  - apply stores_agree_on_available_options.
Qed.

End views_together.

(** X9 on the catalogue: with Shirt selected, Red is available. *)
Lemma available_choice_has_results_witness :
  Naive.getAvailableOptions products product_config
    (Naive.select (Naive.initialDimensions product_config) "category" (Str "Shirt"))
    "color" = Some [Str "Red"; Str "Black"]
  ∧ Str "Red" ∈ [Str "Red"; Str "Black"]
  ∧ Str "Red" ≠ NaN
  ∧ Naive.filteredItems products
      (Naive.select
         (Naive.select (Naive.initialDimensions product_config) "category" (Str "Shirt"))
         "color" (Str "Red")) ≠ [].
Proof.
  assert (Str "Red" ∈ [Str "Red"; Str "Black"]) as Hin by by_evaluation.
  split; [reflexivity|]. split; [exact Hin|]. split; [discriminate|].
  exact (available_choice_has_results products product_config
           (Naive.select (Naive.initialDimensions product_config) "category" (Str "Shirt"))
           "color" [Str "Red"; Str "Black"] (Str "Red")
           eq_refl Hin ltac:(discriminate)).
Defined.

(** ** FilterGroup.svelte *)

Section filter_group.

Variable items : list Item.
Variable config : gmap string (list PropertyValue).
Variable properties : gmap string Reconciling.FilterProperty.

Lemma enabled_option_radios (P : PropertyValue → Prop) `{!∀ x, Decision (P x)}
    (selected_value : JsValue) (opts shown : list PropertyValue) :
  FilterGroup.enabled_values
    (map (FilterGroup.option_radio selected_value (filter P opts)) shown)
  = filter (λ option, option ∈ filter P opts) shown.
Proof.
  unfold FilterGroup.enabled_values.
  induction shown as [|option shown IH]; [done|].
  cbn [map]. rewrite !filter_cons. cbn [FilterGroup.option_radio FilterGroup.disabled].
  rewrite negb_involutive.
  pose proof (includes_Some (filter P opts) option) as Hinc.
  destruct (includes _ _).
  - rewrite decide_True by exact I. rewrite decide_True by (by apply Hinc).
    cbn [map FilterGroup.option_radio FilterGroup.value]. by rewrite IH.
  - rewrite decide_False by (intros []).
    rewrite decide_False by (intros Hin; apply Hinc in Hin; discriminate). done.
Qed.

(** X16: a group that is given a dimension's configured options and its
    available options renders as enabled, after the 'Any' input and in
    order, exactly the available options, whatever value is selected; for
    createMultiFilterStore as the page wires it, and for createFilterStore. *)
Theorem enabled_radios_are_available_options
    (cur : Reconciling.FilterState) (dims : Naive.Dimensions)
    (selected_value : JsValue) key property opts available :
  properties !! key = Some property →
  config !! key = Some opts →
  Naive.getAvailableOptions items config dims key = Some available →
  (∃ availableOptions,
     Reconciling.getAvailableOptions items properties cur key = Some availableOptions
     ∧ FilterGroup.enabled_values
         (FilterGroup.radios (Reconciling.options property) selected_value
            availableOptions)
       = ANY_OPTION :: availableOptions)
  ∧ FilterGroup.enabled_values (FilterGroup.radios opts selected_value available)
    = ANY_OPTION :: available.
Proof.
  intros Hprop Hcfg Hav.
  rewrite naive_getAvailableOptions_reachable, Hcfg in Hav. injection Hav as <-.
  rewrite getAvailableOptions_reachable, Hprop.
  assert (∀ (P : PropertyValue → Prop) `{!∀ x, Decision (P x)} l,
            FilterGroup.enabled_values (FilterGroup.radios l selected_value (filter P l))
            = ANY_OPTION :: filter P l) as Hgroup.
  { intros P HP l. unfold FilterGroup.radios.
    change (FilterGroup.enabled_values (?r :: ?rs))
      with (ANY_OPTION :: FilterGroup.enabled_values rs).
    f_equal. rewrite enabled_option_radios.
    apply filter_ext_elem. intros option Hin. rewrite list_elem_of_filter. tauto. }
  split; [eexists; split; [done|]|]; apply Hgroup.
Qed.

End filter_group.

(** X16 on the catalogue, with Shirt selected, for the colour group. *)
Lemma enabled_radios_are_available_options_witness :
  product_properties !! "color"
  = Some {| Reconciling.name := "Color";
            Reconciling.options := [Str "Red"; Str "Blue"; Str "Black"] |}
  ∧ product_config !! "color" = Some [Str "Red"; Str "Blue"; Str "Black"]
  ∧ Naive.getAvailableOptions products product_config
      (Naive.select (Naive.initialDimensions product_config) "category" (Str "Shirt"))
      "color" = Some [Str "Red"; Str "Black"]
  ∧ (∃ availableOptions,
       Reconciling.getAvailableOptions products product_properties
         (Reconciling.currentState shirt_store) "color" = Some availableOptions
       ∧ FilterGroup.enabled_values
           (FilterGroup.radios [Str "Red"; Str "Blue"; Str "Black"] (Some ANY_OPTION)
              availableOptions)
         = ANY_OPTION :: availableOptions)
  ∧ FilterGroup.enabled_values
      (FilterGroup.radios [Str "Red"; Str "Blue"; Str "Black"] (Some ANY_OPTION)
         [Str "Red"; Str "Black"])
    = [ANY_OPTION; Str "Red"; Str "Black"].
Proof.
  split; [reflexivity|]. split; [reflexivity|]. split; [reflexivity|].
  exact (enabled_radios_are_available_options products product_config product_properties
           (Reconciling.currentState shirt_store)
           (Naive.select (Naive.initialDimensions product_config) "category" (Str "Shirt"))
           (Some ANY_OPTION) "color"
           {| Reconciling.name := "Color";
              Reconciling.options := [Str "Red"; Str "Blue"; Str "Black"] |}
           [Str "Red"; Str "Blue"; Str "Black"] [Str "Red"; Str "Black"]
           eq_refl eq_refl eq_refl).
Defined.

(** ** Choosing a value narrows the cleared results *)

Section narrowing.

Variable items : list Item.

Implicit Types (dims : Naive.Dimensions) (cur : Reconciling.FilterState) (item : Item).

(** X17: the items filtered after a value is chosen for a dimension are the
    items filtered with that dimension set to 'Any', restricted to those
    whose field is strictly equal to the value; in both stores. *)
Theorem choosing_narrows_cleared_results dims cur dimension value :
  Naive.filteredItems items (Naive.select dims dimension value)
  = filter (λ item, value = ANY_OPTION ∨ field_is item dimension value)
      (Naive.filteredItems items (Naive.select dims dimension ANY_OPTION))
  ∧ Reconciling.getFilteredItems items (<[dimension := value]> cur)
    = filter (λ item, value = ANY_OPTION ∨ field_is item dimension value)
        (Reconciling.getFilteredItems items (<[dimension := ANY_OPTION]> cur)).
Proof.
  rewrite !filteredItems_matches, !getFilteredItems_matches, !list_filter_filter.
  split; apply list_filter_iff; intros item.
  - unfold Naive.matches. split.
    + intros H. split.
      * apply (H dimension {| Naive.options := dims !! dimension ≫= Naive.options;
                              Naive.selected := value |}).
        by rewrite select_lookup, decide_True.
      * intros key dim. rewrite select_lookup. case_decide as Hk.
        -- intros [= <-]. by left.
        -- intros Hkey. apply (H key dim). by rewrite select_lookup, decide_False.
    + intros [Hnew Hold] key dim. rewrite select_lookup. case_decide as Hk.
      * subst key. by intros [= <-].
      * intros Hkey. apply (Hold key dim). by rewrite select_lookup, decide_False.
  - unfold Reconciling.matches. split.
    + intros H. split.
      * apply (H dimension value). apply lookup_insert_eq.
      * intros key x. rewrite lookup_insert. case_decide as Hk.
        -- intros [= <-]. by left.
        -- intros Hkey. apply (H key x). by rewrite lookup_insert_ne.
    + intros [Hnew Hold] key x. rewrite lookup_insert. case_decide as Hk.
      * subst key. by intros [= <-].
      * intros Hkey. apply (Hold key x). by rewrite lookup_insert_ne.
Qed.

End narrowing.
